(** * architecture_lab_4: the segmented key/value store and the balancer

    A shallow embedding of [datastore/entry.go], [datastore/db.go] and
    [cmd/lb/balancer.go].  Go values are modelled as follows.

    - [int], [int64]: [Z].  Lengths of in-memory strings and slices never
      reach 2^63, so these are not wrapped; [uint32] conversions and
      [uint32] arithmetic wrap modulo 2^32 and are written with [u32];
      the [time.Duration] product wraps modulo 2^64 and is written with
      [i64].
    - [string]: [string] (a sequence of 8-bit characters); [[]byte]:
      a [slice] over a backing [list byte] with a length and a capacity.
    - [(T, error)] results and run-time panics: [outcome].
    - [map[string]int64]: [gmap string Z].
    - files, the buffered reader, goroutine hand-offs: explicit state.

    The loops of the Go code are written with a bound on their turns;
    [peek_loop_exits], [Discard_total], [recover_total],
    [down_loop_enough] and [up_loop_enough] show that the bounds are
    never met. *)

From Stdlib Require Import ZArith List Bool Lia.
From Stdlib Require Import Strings.Byte Strings.String Strings.Ascii.
From stdpp Require Import base option list gmap strings pretty.

Local Open Scope Z_scope.

(** ** Results of Go calls *)

(** The error values that the modelled code creates or receives. *)
Inductive error : Type :=
| EOF                    (* io.EOF *)
| ErrBufferFull          (* bufio.ErrBufferFull *)
| ErrNegativeCount       (* bufio.ErrNegativeCount *)
| ErrNotFound            (* datastore.ErrNotFound *)
| ErrClosed              (* os.ErrClosed: use of closed file *)
| ErrNoSpace             (* ENOSPC: no space left on device *)
| ErrNotExist            (* ENOENT: no such file or directory *)
| ErrInvalidArgument     (* EINVAL, e.g. a seek to a negative offset *)
| ErrCorrupted           (* "corrupted file" *)
| ErrInvalidDataType     (* "invalid data type" *)
| ErrUnexpectedDataType  (* "unexpected data type: ..." *)
| ErrValueBytes (n expected : Z) (* "can't read value bytes (read n, expected e)" *)
| ErrLoopBound.          (* not a Go error: a loop of the model hit its bound *)

(** Run-time panics of the Go runtime. *)
Inductive panic : Type :=
| IndexOutOfRange
| SliceBoundsOutOfRange.

Inductive outcome (A : Type) : Type :=
| Ok (a : A)
| Err (e : error)
| Panic (p : panic).
Arguments Ok {A} a.
Arguments Err {A} e.
Arguments Panic {A} p.

(** [err == nil] *)
Definition isNil (err : option error) : bool :=
  match err with
  | None => true
  | Some _ => false
  end.

Definition obind {A B} (m : outcome A) (k : A -> outcome B) : outcome B :=
  match m with
  | Ok a => k a
  | Err e => Err e
  | Panic p => Panic p
  end.

Global Instance outcome_ret : MRet outcome := fun A a => Ok a.
Global Instance outcome_bind : MBind outcome := fun A B k m => obind m k.

(** ** Machine integers and bytes *)

Definition u32 (z : Z) : Z := z mod 2 ^ 32.

(** Signed 64-bit wrap-around. *)
Definition i64 (z : Z) : Z := (z + 2 ^ 63) mod 2 ^ 64 - 2 ^ 63.

Definition Z_of_byte (b : byte) : Z := Z.of_N (Byte.to_N b).

Definition byte_of_Z (z : Z) : byte :=
  match Byte.of_N (Z.to_N (z mod 256)) with
  | Some b => b
  | None => x00
  end.

Definition len {A} (l : list A) : Z := Z.of_nat (length l).

Definition slen (s : string) : Z := Z.of_nat (String.length s).

(** [[]byte(s)] and [string(b)]. *)
Definition bytes_of_string (s : string) : list byte := list_byte_of_string s.
Definition string_of_bytes (l : list byte) : string := string_of_list_byte l.

(** ** Slices

    A slice is a window on a backing array.  [sl_arr] is the backing
    array from the slice's first element up to its capacity; its first
    [sl_len] bytes are the slice's elements. *)

Record slice : Type := mkSlice { sl_arr : list byte; sl_len : Z }.

Definition cap (s : slice) : Z := len (sl_arr s).

(** The elements of the slice. *)
Definition elems (s : slice) : list byte := take (Z.to_nat (sl_len s)) (sl_arr s).

(** A slice that holds exactly [l], with no spare capacity. *)
Definition slice_of (l : list byte) : slice := mkSlice l (len l).

(** [s[lo:]]: the upper bound defaults to [len(s)]. *)
Definition slice_from (s : slice) (lo : Z) : outcome slice :=
  if (0 <=? lo) && (lo <=? sl_len s)
  then Ok (mkSlice (drop (Z.to_nat lo) (sl_arr s)) (sl_len s - lo))
  else Panic SliceBoundsOutOfRange.

(** [s[lo:hi]]: for a slice the upper bound may reach [cap(s)]. *)
Definition slice_range (s : slice) (lo hi : Z) : outcome slice :=
  if (0 <=? lo) && (lo <=? hi) && (hi <=? cap s)
  then Ok (mkSlice (drop (Z.to_nat lo) (sl_arr s)) (hi - lo))
  else Panic SliceBoundsOutOfRange.

(** [copy(dst, src)] writes [min(len(dst), len(src))] elements; the
    result is the new content of [dst]. *)
Definition copy (dst src : list byte) : list byte :=
  take (length dst) src ++ drop (length src) dst.

(** The content of [buf := make([]byte, n); copy(buf, src)]. *)
Definition copy_make (n : Z) (src : list byte) : list byte :=
  take (Z.to_nat n) src ++ replicate (Z.to_nat n - length src)%nat x00.

(** ** encoding/binary, little endian *)

Module LittleEndian.

Definition le32 (b0 b1 b2 b3 : byte) : Z :=
  Z_of_byte b0 + 256 * Z_of_byte b1 + 65536 * Z_of_byte b2
  + 16777216 * Z_of_byte b3.

(** [binary.LittleEndian.Uint32(b)]: starts with the bounds check
    [_ = b[3]]. *)
Definition Uint32 (b : slice) : outcome Z :=
  if 4 <=? sl_len b then
    match sl_arr b with
    | b0 :: b1 :: b2 :: b3 :: _ => Ok (le32 b0 b1 b2 b3)
    | _ => Panic IndexOutOfRange
    end
  else Panic IndexOutOfRange.

(** The four bytes that [binary.LittleEndian.PutUint32(b, v)] stores
    at the start of [b]. *)
Definition PutUint32 (v : Z) : list byte :=
  [byte_of_Z v; byte_of_Z (v / 256); byte_of_Z (v / 65536);
   byte_of_Z (v / 16777216)].

End LittleEndian.

(** ** datastore/entry.go *)

Record entry : Type := mkEntry { key : string; value : string; dataType : string }.

Definition getLength (key value dataType : string) : Z :=
  slen key + slen value + slen dataType + 12.

Definition GetLength (e : entry) : Z :=
  getLength (key e) (value e) (dataType e).

(** [Encode].  [res] has [kl + vl + 12] bytes, so the destination of the
    last [copy], [res[kl+12+vl:]], is empty: no byte of [dataType] is
    stored.  Every store into [res] lands on distinct, in-range
    positions, so the result is the concatenation below. *)
Definition Encode (e : entry) : list byte :=
  let kl := slen (key e) in
  let vl := slen (value e) in
  let size := kl + vl + 12 in
  let tail := copy [] (bytes_of_string (dataType e)) in
  LittleEndian.PutUint32 (u32 size)
  ++ LittleEndian.PutUint32 (u32 kl)
  ++ bytes_of_string (key e)
  ++ LittleEndian.PutUint32 (u32 vl)
  ++ bytes_of_string (value e)
  ++ tail.

(** [Decode].  The receiver's three fields are assigned in turn; a panic
    on the way leaves no result to the caller. *)
Definition Decode (input : slice) : outcome entry :=
  h ← slice_from input 4;
  kl ← LittleEndian.Uint32 h;
  ks ← slice_range input 8 (u32 (kl + 8));
  let keyBuf := copy_make kl (elems ks) in
  h ← slice_from input (u32 (kl + 8));
  vl ← LittleEndian.Uint32 h;
  vs ← slice_range input (u32 (kl + 12)) (u32 (kl + 12 + vl));
  let valBuf := copy_make vl (elems vs) in
  h ← slice_from input (u32 (kl + 12 + vl));
  dl ← LittleEndian.Uint32 h;
  ds ← slice_range input (u32 (kl + 12 + vl + 4)) (u32 (kl + 12 + vl + 4 + dl));
  let dataTypeBuf := copy_make dl (elems ds) in
  Ok (mkEntry (string_of_bytes keyBuf) (string_of_bytes valBuf)
              (string_of_bytes dataTypeBuf)).

(** ** A regular file read through bufio.Reader

    The reader is modelled over a regular file: a [Read] of the file
    into a non-empty destination returns as many bytes as fit, or
    [(0, io.EOF)] once the file is exhausted; it never returns
    [(0, nil)].  [rd_buf] is the buffered, still unread data
    [b.buf[b.r:b.w]]; [rd_src] is what the file still holds after it. *)

Module bufio.

Record Reader : Type := mkReader {
  rd_size : Z;               (* len(b.buf) *)
  rd_buf : list byte;        (* b.buf[b.r:b.w] *)
  rd_src : list byte;        (* the unread rest of the file *)
  rd_err : option error      (* b.err *)
}.

Definition defaultBufSize : Z := 4096.
Definition minReadBufferSize : Z := 16.

Definition NewReaderSize (src : list byte) (size : Z) : Reader :=
  mkReader (if size <? minReadBufferSize then minReadBufferSize else size)
           [] src None.

Definition NewReader (src : list byte) : Reader :=
  NewReaderSize src defaultBufSize.

(** [Read] of [os.File] into a destination of [k > 0] bytes: the bytes
    read, the rest of the file and the error. *)
Definition file_read (k : Z) (src : list byte)
  : list byte * list byte * option error :=
  match src with
  | [] => ([], [], Some EOF)
  | _ => (take (Z.to_nat k) src, drop (Z.to_nat k) src, None)
  end.

Definition Buffered (b : Reader) : Z := len (rd_buf b).

Definition readErr (b : Reader) : option error * Reader :=
  (rd_err b, mkReader (rd_size b) (rd_buf b) (rd_src b) None).

(** [fill] slides the unread data to the front and reads once into
    the free room behind it. *)
Definition fill (b : Reader) : Reader :=
  let '(bs, src, e) := file_read (rd_size b - Buffered b) (rd_src b) in
  mkReader (rd_size b) (rd_buf b ++ bs) src
           (match e with Some _ => e | None => rd_err b end).

Fixpoint peek_loop (fuel : nat) (n : Z) (b : Reader) : Reader :=
  match fuel with
  | O => b
  | S fuel' =>
      if (Buffered b <? n) && (Buffered b <? rd_size b) && isNil (rd_err b)
      then peek_loop fuel' n (fill b)
      else b
  end.

(** Every [fill] of [peek_loop] either takes a byte from the file or
    sets [b.err], so the loop runs at most [length rd_src + 1] times. *)
Definition Peek (n : Z) (b : Reader) : (list byte * option error) * Reader :=
  if n <? 0 then (([], Some ErrNegativeCount), b) else
  let b := peek_loop (S (S (length (rd_src b)))) n b in
  if rd_size b <? n then ((rd_buf b, Some ErrBufferFull), b) else
  if Buffered b <? n then
    let '(e, b') := readErr b in
    ((rd_buf b, Some (default ErrBufferFull e)), b')
  else ((take (Z.to_nat n) (rd_buf b), None), b).

Fixpoint discard_loop (fuel : nat) (n remain : Z) (b : Reader)
  : (Z * option error) * Reader :=
  match fuel with
  | O => ((n - remain, Some ErrLoopBound), b)
  | S fuel' =>
      let b := if Buffered b =? 0 then fill b else b in
      let skip := Z.min (Buffered b) remain in
      let b := mkReader (rd_size b) (drop (Z.to_nat skip) (rd_buf b))
                        (rd_src b) (rd_err b) in
      let remain := remain - skip in
      if remain =? 0 then ((n, None), b) else
      match rd_err b with
      | Some _ => let '(e, b') := readErr b in ((n - remain, e), b')
      | None => discard_loop fuel' n remain b
      end
  end.

Definition Discard (n : Z) (b : Reader) : (Z * option error) * Reader :=
  if n <? 0 then ((0, Some ErrNegativeCount), b) else
  if n =? 0 then ((0, None), b) else
  discard_loop (S (S (length (rd_buf b) + length (rd_src b)))) n n b.

(** [Read(p)] with [n = len(p)]: the bytes stored at the start of [p]
    (their number is the returned count) and the error. *)
Definition Read (n : Z) (b : Reader) : (list byte * option error) * Reader :=
  let copy_out (b : Reader) :=
    ((take (Z.to_nat n) (rd_buf b), None),
     mkReader (rd_size b) (drop (Z.to_nat n) (rd_buf b)) (rd_src b) (rd_err b)) in
  if n =? 0 then
    if 0 <? Buffered b then (([], None), b)
    else let '(e, b') := readErr b in (([], e), b')
  else if Buffered b =? 0 then
    match rd_err b with
    | Some _ => let '(e, b') := readErr b in (([], e), b')
    | None =>
        if rd_size b <=? n then
          (* large read, empty buffer: read into p directly *)
          let '(bs, src, e) := file_read n (rd_src b) in
          let '(e', b') := readErr (mkReader (rd_size b) [] src e) in
          ((bs, e'), b')
        else
          let '(bs, src, e) := file_read (rd_size b) (rd_src b) in
          let b1 := mkReader (rd_size b) bs src e in
          if len bs =? 0 then let '(e', b') := readErr b1 in (([], e'), b')
          else copy_out b1
    end
  else copy_out b.

End bufio.

(** [if err != nil { return "", err }] after a call that returns
    [(v, err)]. *)
Definition try {A} (res : A * option error) : outcome A :=
  match res.2 with
  | Some e => Err e
  | None => Ok res.1
  end.

Definition readValue (in_ : bufio.Reader) : outcome string :=
  let '(res, in_) := bufio.Peek 8 in_ in
  header ← try res;
  h ← slice_from (slice_of header) 4;
  keySize ← LittleEndian.Uint32 h;
  let '(res, in_) := bufio.Discard (keySize + 8) in_ in
  _ ← try res;
  let '(res, in_) := bufio.Read 4 in_ in
  got ← try res;
  let dataTypeBuf := copy_make 4 got in
  let dataType := string_of_bytes dataTypeBuf in
  if negb (String.eqb dataType (string_of_bytes dataTypeBuf))
  then Err ErrUnexpectedDataType else
  let '(res, in_) := bufio.Peek 4 in_ in
  header ← try res;
  valSize ← LittleEndian.Uint32 (slice_of header);
  let '(res, in_) := bufio.Discard 4 in_ in
  _ ← try res;
  let '(res, in_) := bufio.Read valSize in_ in
  got ← try res;
  let n := len got in
  if negb (n =? valSize) then Err (ErrValueBytes n valSize) else
  Ok (string_of_bytes (copy_make valSize got)).

(** ** The operating system's files

    A file system is a set of directories, the regular files by path
    and the number of bytes the device can still take.  A write that
    does not fit stores what fits and fails with [ENOSPC]. *)

Module os.

Record FS : Type := mkFS {
  fs_dirs : gset string;
  fs_files : gmap string (list byte);
  fs_free : Z
}.

(** An open file: the path it was opened on and whether [Close] has
    been called on it. *)
Record File : Type := mkFile { f_name : string; f_closed : bool }.

(** The directory part of a path: what precedes its last separator. *)
Fixpoint dirname (path : string) : option string :=
  match path with
  | EmptyString => None
  | String c rest =>
      match dirname rest with
      | Some d => Some (String c d)
      | None => if Ascii.eqb c "/" then Some EmptyString else None
      end
  end.

Definition content (fs : FS) (name : string) : list byte :=
  default [] (fs_files fs !! name).

(** [os.OpenFile(path, os.O_APPEND|...|os.O_CREATE, perm)] *)
Definition OpenFile (fs : FS) (path : string) : outcome File * FS :=
  match dirname path with
  | Some d =>
      if bool_decide (d ∈ fs_dirs fs) then
        (Ok (mkFile path false),
         mkFS (fs_dirs fs) (<[path := content fs path]> (fs_files fs)) (fs_free fs))
      else (Err ErrNotExist, fs)
  | None => (Err ErrNotExist, fs)
  end.

(** [f.Stat()] followed by [.Size()]. *)
Definition StatSize (fs : FS) (f : File) : outcome Z :=
  if f_closed f then Err ErrClosed else Ok (len (content fs (f_name f))).

(** [f.Write(b)] on a file opened with [O_APPEND]. *)
Definition Write (fs : FS) (f : File) (b : list byte) : (Z * option error) * FS :=
  if f_closed f then ((0, Some ErrClosed), fs) else
  if len b <=? fs_free fs then
    ((len b, None),
     mkFS (fs_dirs fs) (<[f_name f := content fs (f_name f) ++ b]> (fs_files fs))
          (fs_free fs - len b))
  else
    let k := Z.max 0 (fs_free fs) in
    ((k, Some ErrNoSpace),
     mkFS (fs_dirs fs)
          (<[f_name f := content fs (f_name f) ++ take (Z.to_nat k) b]> (fs_files fs))
          (fs_free fs - k)).

Definition Close (f : File) : option error * File :=
  if f_closed f then (Some ErrClosed, f) else (None, mkFile (f_name f) true).

(** [os.Open(path)], [file.Seek(position, 0)] and [bufio.NewReader(file)]
    in one step: the reader over the file from [position] on. *)
Definition OpenReaderAt (fs : FS) (path : string) (position : Z)
  : outcome bufio.Reader :=
  match fs_files fs !! path with
  | None => Err ErrNotExist
  | Some bytes =>
      if position <? 0 then Err ErrInvalidArgument
      else Ok (bufio.NewReader (drop (Z.to_nat position) bytes))
  end.

End os.

(** ** datastore/db.go *)

Definition outFileName : string := "current-data".
Definition bufSize : Z := 8192.
Definition deleteMarker : string := "DELETE".

Record Segment : Type := mkSegment {
  s_outOffset : Z;
  index : gmap string Z;
  filePath : string
}.

(** The channels of [Db] carry no state between two requests of one
    caller and are modelled by the calls they stand for; the field
    [index] of [Db] is never assigned or read.  [merges] counts the
    merge goroutines that were started and have not run yet. *)
Record Db : Type := mkDb {
  out : os.File;
  outPath : string;
  outOffset : Z;
  dir : string;
  segmentSize : Z;
  lastSegmentIndex : Z;
  segments : list Segment;
  merges : nat
}.

(** The store together with the file system it lives on. *)
Definition World : Type := os.FS * Db.

Definition set_lastSegmentIndex (n : Z) (db : Db) : Db :=
  mkDb (out db) (outPath db) (outOffset db) (dir db) (segmentSize db) n
       (segments db) (merges db).
Definition set_out (f : os.File) (db : Db) : Db :=
  mkDb f (outPath db) (outOffset db) (dir db) (segmentSize db)
       (lastSegmentIndex db) (segments db) (merges db).
Definition set_outPath (p : string) (db : Db) : Db :=
  mkDb (out db) p (outOffset db) (dir db) (segmentSize db)
       (lastSegmentIndex db) (segments db) (merges db).
Definition set_outOffset (n : Z) (db : Db) : Db :=
  mkDb (out db) (outPath db) n (dir db) (segmentSize db)
       (lastSegmentIndex db) (segments db) (merges db).
Definition set_segments (l : list Segment) (db : Db) : Db :=
  mkDb (out db) (outPath db) (outOffset db) (dir db) (segmentSize db)
       (lastSegmentIndex db) l (merges db).
Definition set_merges (n : nat) (db : Db) : Db :=
  mkDb (out db) (outPath db) (outOffset db) (dir db) (segmentSize db)
       (lastSegmentIndex db) (segments db) n.

(** [filepath.Join(db.dir, fmt.Sprintf("%s%d", outFileName, ix))] for a
    clean [db.dir]: a path that [filepath.Join] keeps as it is and
    extends by a separator and the name.  It has no empty element
    but a leading one, no element [.] or [..] and no separator at
    its end ([cleanDir] below); the directories of a file system
    are named by such paths. *)
Definition generateNewFileName (db : Db) : string * Db :=
  (dir db +:+ "/" +:+ outFileName +:+ pretty (lastSegmentIndex db),
   set_lastSegmentIndex (lastSegmentIndex db + 1) db).

(** [mergeOldSegments] only starts the goroutine; [runMerge] below is
    its body. *)
Definition mergeOldSegments (db : Db) : Db := set_merges (S (merges db)) db.

Definition createNewSegment (w : World) : outcome unit * World :=
  let '(fs, db) := w in
  let '(filePath, db) := generateNewFileName db in
  match os.OpenFile fs filePath with
  | (Ok f, fs) =>
      let newSegment := mkSegment 0 ∅ filePath in
      let db := set_out f db in
      let db := set_outOffset 0 db in
      let db := set_outPath filePath db in
      let db := set_segments (segments db ++ [newSegment]) db in
      let db := if 3 <=? len (segments db) then mergeOldSegments db else db in
      (Ok (), (fs, db))
  | (Err e, fs) => (Err e, (fs, db))
  | (Panic p, fs) => (Panic p, (fs, db))
  end.

(** [db.segments[len(db.segments)-1]] *)
Definition getLastSegment (db : Db) : outcome Segment :=
  match last (segments db) with
  | Some s => Ok s
  | None => Panic IndexOutOfRange
  end.

Definition setKey (key : string) (n : Z) (db : Db) : outcome Db :=
  s ← getLastSegment db;
  let s' := mkSegment (s_outOffset s) (<[key := outOffset db]> (index s)) (filePath s) in
  let db := set_segments (<[(length (segments db) - 1)%nat := s']> (segments db)) db in
  Ok (set_outOffset (outOffset db + n) db).

Definition findKeyInSegments (segments : list Segment) (key : string) : bool :=
  existsb (fun s => bool_decide (is_Some (index s !! key))) segments.

Definition getFromSegment (fs : os.FS) (s : Segment) (position : Z) : outcome string :=
  reader ← os.OpenReaderAt fs (filePath s) position;
  readValue reader.

Fixpoint newestFirst (reversed : list Segment) (key : string) : outcome (Segment * Z) :=
  match reversed with
  | [] => Err ErrNotFound
  | s :: older =>
      match index s !! key with
      | Some pos => Ok (s, pos)
      | None => newestFirst older key
      end
  end.

(** The loop visits [db.segments[len-i-1]] for [i = 0, 1, ...]. *)
Definition getSegmentAndPos (db : Db) (key : string) : outcome (Segment * Z) :=
  newestFirst (reverse (segments db)) key.

Record indexOp : Type := mkIndexOp { isWrite : bool; op_key : string; op_index : Z }.

Record keyPosition : Type := mkKeyPosition { segment : Segment; position : Z }.

(** One turn of the loop of [IndexGoroutine]: the operation received on
    [indexOps], and for a lookup the reply sent on [keyPositions]
    ([None] is the nil pointer; a write sends no reply). *)
Definition IndexGoroutine (op : indexOp) (db : Db) : outcome (option keyPosition * Db) :=
  if isWrite op then
    db ← setKey (op_key op) (op_index op) db;
    Ok (None, db)
  else
    match getSegmentAndPos db (op_key op) with
    | Ok (s, p) => Ok (Some (mkKeyPosition s p), db)
    | _ => Ok (None, db)
    end.

Definition getPos (db : Db) (key : string) : outcome (option keyPosition) :=
  r ← IndexGoroutine (mkIndexOp false key 0) db;
  Ok r.1.

(** One turn of the loop of [PutGoroutine]: the entry received on
    [putOps], and the value sent on [putDone] ([Ok ()] is nil). *)
Definition PutGoroutine (e : entry) (w : World) : outcome unit * World :=
  let length := GetLength e in
  match os.StatSize w.1 (out w.2) with
  | Err err => (Err err, w)
  | Panic p => (Panic p, w)
  | Ok size =>
      let '(r, w) :=
        if segmentSize w.2 <? size + length then createNewSegment w else (Ok (), w) in
      match r with
      | Err err => (Err err, w)
      | Panic p => (Panic p, w)
      | Ok _ =>
          let '(fs, db) := w in
          let '((n, err), fs) := os.Write fs (out db) (Encode e) in
          match err with
          | None =>
              match IndexGoroutine (mkIndexOp true (key e) n) db with
              | Ok (_, db) => (Ok (), (fs, db))
              | Err err => (Err err, (fs, db))
              | Panic p => (Panic p, (fs, db))
              end
          | Some _ => (Ok (), (fs, db))
          end
      end
  end.

Definition Put (key value : string) (w : World) : outcome unit * World :=
  PutGoroutine (mkEntry key (value +:+ "s") "") w.

(** [s[lo:]] and [s[:hi]] on strings. *)
Definition str_from (s : string) (lo : Z) : outcome string :=
  if (0 <=? lo) && (lo <=? slen s)
  then Ok (String.substring (Z.to_nat lo) (String.length s - Z.to_nat lo) s)
  else Panic SliceBoundsOutOfRange.

Definition str_to (s : string) (hi : Z) : outcome string :=
  if (0 <=? hi) && (hi <=? slen s)
  then Ok (String.substring 0 (Z.to_nat hi) s)
  else Panic SliceBoundsOutOfRange.

Definition Get (key : string) (w : World) : outcome string :=
  keyPos ← getPos w.2 key;
  match keyPos with
  | None => Err ErrNotFound
  | Some keyPos =>
      value ← getFromSegment w.1 (segment keyPos) (position keyPos);
      tag ← str_from value (slen value - 1);
      if negb (String.eqb tag "s") then Err ErrInvalidDataType else
      str_to value (slen value - 1)
  end.

Definition Close (w : World) : outcome unit * World :=
  let '(e, f) := os.Close (out w.2) in
  (match e with Some e => Err e | None => Ok () end, (w.1, set_out f w.2)).

(** The loop of [recover].  [buf] is the array [buf [bufSize]byte];
    [data] aliases it when the frame is shorter than the array. *)
Fixpoint recover_loop (fuel : nat) (in_ : bufio.Reader) (buf : list byte) (db : Db)
  : outcome unit * Db :=
  match fuel with
  | O => (Err ErrLoopBound, db)
  | S fuel' =>
      let '((header, err), in_) := bufio.Peek bufSize in_ in
      let stop :=
        match err with
        | Some EOF => if len header =? 0 then Some EOF else None
        | Some e => Some e
        | None => None
        end in
      match stop with
      | Some e => (Err e, db)
      | None =>
          match LittleEndian.Uint32 (slice_of header) with
          | Panic p => (Panic p, db)
          | Err e => (Err e, db)
          | Ok size =>
              let '((got, err), in_) := bufio.Read size in_ in
              let n := len got in
              match err with
              | Some e => (Err e, db)
              | None =>
                  if negb (n =? size) then (Err ErrCorrupted, db) else
                  let data :=
                    if size <? bufSize then mkSlice (copy buf got) size
                    else mkSlice (copy_make size got) size in
                  let buf := if size <? bufSize then copy buf got else buf in
                  match e ← Decode data; setKey (key e) n db with
                  | Ok db => recover_loop fuel' in_ buf db
                  | Err e => (Err e, db)
                  | Panic p => (Panic p, db)
                  end
              end
          end
      end
  end.

(** [recover] reads [db.out] from its start; every turn of the loop that
    does not leave it takes at least one byte, which bounds the loop. *)
Definition recover (fs : os.FS) (db : Db) : outcome unit * Db :=
  let bytes := os.content fs (os.f_name (out db)) in
  let in_ :=
    if os.f_closed (out db)
    then bufio.mkReader bufSize [] [] (Some ErrClosed)
    else bufio.NewReaderSize bytes bufSize in
  recover_loop (S (length bytes)) in_ (replicate (Z.to_nat bufSize) x00) db.

Definition NewDb (dir : string) (segmentSize : Z) (fs : os.FS) : outcome Db * os.FS :=
  let db := mkDb (os.mkFile "" true) "" 0 dir segmentSize 0 [] 0 in
  match createNewSegment (fs, db) with
  | (Err e, (fs, _)) => (Err e, fs)
  | (Panic p, (fs, _)) => (Panic p, fs)
  | (Ok _, (fs, db)) =>
      match recover fs db with
      | (Ok _, db) | (Err EOF, db) => (Ok db, fs)
      | (Err e, _) => (Err e, fs)
      | (Panic p, _) => (Panic p, fs)
      end
  end.

(** *** The merge goroutine *)

Section Merge.

(** The order in which [range s.index] visits a map; Go leaves it
    unspecified. *)
Variable rangeOrder : gmap string Z -> list (string * Z).

Definition mergeKey (f : os.File) (s : Segment) (newer : list Segment)
    (st : os.FS * gmap string Z * Z) (kv : string * Z) : os.FS * gmap string Z * Z :=
  let '(fs, newIndex, offset) := st in
  let '(key, ix) := kv in
  if negb (bool_decide (newer = [])) && findKeyInSegments newer key then st else
  let value := match getFromSegment fs s ix with Ok v => v | _ => "" end in
  if String.eqb value deleteMarker then st else
  let e := mkEntry key value "" in
  let '((n, err), fs) := os.Write fs f (Encode e) in
  match err with
  | None => (fs, <[key := offset]> newIndex, offset + n)
  | Some _ => (fs, newIndex, offset)
  end.

(** The outer loop over [db.segments[0..lastSegmentIndex]]; [newer]
    is [db.segments[i+1:lastSegmentIndex+1]], empty exactly when
    [i = lastSegmentIndex]. *)
Fixpoint mergeLoop (f : os.File) (frozen : list Segment)
    (st : os.FS * gmap string Z * Z) : os.FS * gmap string Z * Z :=
  match frozen with
  | [] => st
  | s :: newer =>
      mergeLoop f newer (fold_left (mergeKey f s newer) (rangeOrder (index s)) st)
  end.

(** The body of the goroutine that [mergeOldSegments] starts, run
    without interruption. *)
Definition runMerge (w : World) : outcome unit * World :=
  let '(fs, db) := w in
  let db := set_merges (Nat.pred (merges db)) db in
  let '(filePath, db) := generateNewFileName db in
  match os.OpenFile fs filePath with
  | (Ok f, fs) =>
      let lastSegmentIndex := len (segments db) - 2 in
      let frozen := take (Z.to_nat (lastSegmentIndex + 1)) (segments db) in
      let '(fs, newIndex, _) := mergeLoop f frozen (fs, ∅, 0) in
      match getLastSegment db with
      | Ok active =>
          (Ok (), (fs, set_segments [mkSegment 0 newIndex filePath; active] db))
      | Err e => (Err e, (fs, db))
      | Panic p => (Panic p, (fs, db))
      end
  | (_, fs) => (Ok (), (fs, db))
  end.

End Merge.

(** ** cmd/lb/balancer.go

    A [*Server] is the position of the server's cell in [mem]; the
    pool and the heap hold such pointers, so a counter that a request
    changes is seen through every copy of the pointer.  The counters
    [ComplexityCount] and [IterationsCount] only feed the benchmark's
    log line and are left out. *)

Module lb.

Record Server : Type := mkServer {
  address : string;
  connCnt : Z;
  isServerOnline : bool
}.

Definition ServerHeap : Type := list nat.

Record Flags : Type := mkFlags {
  port : Z;
  timeoutSec : Z;
  https : bool;
  traceEnabled : bool
}.

(** The package-level variables. *)
Record Globals : Type := mkGlobals {
  flags : Flags;
  timeout : Z;                 (* time.Duration, in nanoseconds *)
  mem : list Server;
  serversPool : list nat;
  onlineServers : ServerHeap
}.

Definition Second : Z := 1000000000.
Definition Millisecond : Z := 1000000.

(** Package initialisation: the flags are registered with their
    defaults, then [timeout], [serversPool] and [onlineServers] are
    initialised from them.  This happens before [main] runs. *)
Definition defaultFlags : Flags := mkFlags 8090 3 false false.

Definition init : Globals :=
  mkGlobals defaultFlags
            (i64 (timeoutSec defaultFlags * Second))
            [mkServer "server1:8080" 0 false;
             mkServer "server2:8080" 0 false;
             mkServer "server3:8080" 0 false]
            [0; 1; 2]%nat
            [].

(** What the command line sets: [None] leaves a flag at its default. *)
Record CommandLine : Type := mkCommandLine {
  cl_port : option Z;
  cl_timeoutSec : option Z;
  cl_https : option bool;
  cl_trace : option bool
}.

(** [flag.Parse()] stores the values given on the command line in the
    flag variables. *)
Definition flagParse (cl : CommandLine) (g : Globals) : Globals :=
  mkGlobals
    (mkFlags (default (port (flags g)) (cl_port cl))
             (default (timeoutSec (flags g)) (cl_timeoutSec cl))
             (default (https (flags g)) (cl_https cl))
             (default (traceEnabled (flags g)) (cl_trace cl)))
    (timeout g) (mem g) (serversPool g) (onlineServers g).

Definition set_online (h : ServerHeap) (g : Globals) : Globals :=
  mkGlobals (flags g) (timeout g) (mem g) (serversPool g) h.

Definition set_mem (m : list Server) (g : Globals) : Globals :=
  mkGlobals (flags g) (timeout g) m (serversPool g) (onlineServers g).

(** *** ServerHeap and container/heap

    The loops of [up] and [down] keep every position they use below
    the length of the heap, so the reads below never leave it. *)

Definition cnt (m : list Server) (p : nat) : Z :=
  match m !! p with
  | Some s => connCnt s
  | None => 0
  end.

Definition at_ (h : ServerHeap) (i : Z) : nat := default 0%nat (h !! Z.to_nat i).

Definition Len (h : ServerHeap) : Z := len h.

Definition Less (m : list Server) (h : ServerHeap) (i j : Z) : bool :=
  cnt m (at_ h i) <? cnt m (at_ h j).

Definition Swap (h : ServerHeap) (i j : Z) : ServerHeap :=
  <[Z.to_nat i := at_ h j]> (<[Z.to_nat j := at_ h i]> h).

Definition Push (h : ServerHeap) (x : nat) : ServerHeap := h ++ [x].

Definition Pop (h : ServerHeap) : nat * ServerHeap :=
  let n := Len h in
  (at_ h (n - 1), take (Z.to_nat (n - 1)) h).

Module heap.

Fixpoint up_loop (fuel : nat) (m : list Server) (h : ServerHeap) (j : Z) : ServerHeap :=
  match fuel with
  | O => h
  | S fuel' =>
      let i := Z.quot (j - 1) 2 in
      if (i =? j) || negb (Less m h j i) then h
      else up_loop fuel' m (Swap h i j) i
  end.

(** [j] halves on every turn, so [length h] turns suffice. *)
Definition up (m : list Server) (h : ServerHeap) (j : Z) : ServerHeap :=
  up_loop (S (length h)) m h j.

Fixpoint down_loop (fuel : nat) (m : list Server) (h : ServerHeap) (i n : Z)
  : ServerHeap * Z :=
  match fuel with
  | O => (h, i)
  | S fuel' =>
      let j1 := 2 * i + 1 in
      if (n <=? j1) || (j1 <? 0) then (h, i) else
      let j2 := j1 + 1 in
      let j := if (j2 <? n) && Less m h j2 j1 then j2 else j1 in
      if negb (Less m h j i) then (h, i)
      else down_loop fuel' m (Swap h i j) j n
  end.

(** [i] at least doubles on every turn, so [length h] turns suffice. *)
Definition down (m : list Server) (h : ServerHeap) (i0 n : Z) : ServerHeap * bool :=
  let '(h, i) := down_loop (S (length h)) m h i0 n in
  (h, i0 <? i).

Definition Fix (m : list Server) (h : ServerHeap) (i : Z) : ServerHeap :=
  let '(h, moved) := down m h i (Len h) in
  if negb moved then up m h i else h.

Definition Push (m : list Server) (h : ServerHeap) (x : nat) : ServerHeap :=
  let h := lb.Push h x in
  up m h (Len h - 1).

Definition Remove (m : list Server) (h : ServerHeap) (i : Z) : nat * ServerHeap :=
  let n := Len h - 1 in
  let h :=
    if negb (n =? i) then
      let h := Swap h i n in
      let '(h, moved) := down m h i n in
      if negb moved then up m h i else h
    else h in
  Pop h.

End heap.

(** *** Outbound requests *)

Record Outbound : Type := mkOutbound {
  ob_method : string;
  ob_url : string;
  ob_deadline : Z
}.

Definition scheme (g : Globals) : string :=
  if https (flags g) then "https" else "http".

(** The request that [health(dst)] sends. *)
Definition healthRequest (g : Globals) (dst : string) : Outbound :=
  mkOutbound "GET" (scheme g +:+ "://" +:+ dst +:+ "/health") (timeout g).

(** [health]: [resp] is what [http.DefaultClient.Do] returned, the
    status code or [None] for an error. *)
Definition health (resp : option Z) : bool :=
  match resp with
  | None => false
  | Some code => if negb (code =? 200) then false else true
  end.

(** The request that [forward(dst, rw, r)] sends for the inbound
    request with method [m] and request URI [uri]. *)
Definition forwardRequest (g : Globals) (dst m uri : string) : Outbound :=
  mkOutbound m (scheme g +:+ "://" +:+ dst +:+ uri) (timeout g).

(** What [http.DefaultClient.Do] returns for the forwarded request
    when it returns no error: the status code, which the client reads
    as three digits, and the values of the header [Lb-From].  When the
    client followed redirects it is the last response.  An
    informational status other than 101 never reaches the caller: the
    transport consumes such responses itself. *)
Record Response : Type := mkResponse {
  StatusCode : Z;
  Header_lbFrom : list string
}.

(** [rw.WriteHeader(code)] of net/http: it panics on a code below 100
    or above 999 and writes nothing then. *)
Definition WriteHeader (code : Z) : option Z :=
  if (code <? 100) || (999 <? code) then None else Some code.

(** What the client of the balancer receives: the status code and the
    values of the header [Lb-From]. *)
Record Written : Type := mkWritten {
  status : Z;
  lbFrom : list string
}.

(** [forward(dst, rw, r)]: [resp] is what [http.DefaultClient.Do]
    returned, [None] for an error.  The headers of the response are
    copied, [lb-from] is set when tracing is on, then the status is
    written.  The result is [None] when [rw.WriteHeader] panics. *)
Definition forward (g : Globals) (dst : string) (resp : option Response)
  : option Written :=
  match resp with
  | Some resp =>
      let hdr := Header_lbFrom resp in
      let hdr := if traceEnabled (flags g) then [dst] else hdr in
      code ← WriteHeader (StatusCode resp);
      Some (mkWritten code hdr)
  | None =>
      code ← WriteHeader 503;
      Some (mkWritten code [])
  end.

(** *** main *)

Fixpoint indexOf (h : ServerHeap) (server : nat) (i : Z) : Z :=
  match h with
  | [] => -1
  | s :: rest => if bool_decide (s = server) then i else indexOf rest server (i + 1)
  end.

(** [healthCheckUp(server)], given the result of the probe. *)
Definition healthCheckUp (server : nat) (isOnline : bool) (g : Globals) : Globals :=
  let was := match mem g !! server with Some s => isServerOnline s | None => false end in
  if isOnline && negb was then
    set_online (heap.Push (mem g) (onlineServers g) server) g
  else if negb isOnline && was then
    let serverIndex := indexOf (onlineServers g) server 0 in
    if negb (serverIndex =? -1)
    then set_online (heap.Remove (mem g) (onlineServers g) serverIndex).2 g
    else g
  else g.

Definition addConn (d : Z) (server : nat) (g : Globals) : Globals :=
  set_mem (alter (fun s => mkServer (address s) (connCnt s + d) (isServerOnline s))
                 server (mem g)) g.

(** The handler up to the call of [forward]: either it answers 502
    at once, or it has chosen a server and counted the connection. *)
Definition handlerBegin (g : Globals) : option nat * Globals :=
  if len (onlineServers g) =? 0 then (None, g) else
  let g := set_online (heap.Fix (mem g) (onlineServers g) 0) g in
  let server := at_ (onlineServers g) 0 in
  (Some server, addConn 1 server g).

(** The handler after [forward] has returned. *)
Definition handlerEnd (server : nat) (g : Globals) : Globals :=
  addConn (-1) server g.

(** One run of the handler, as seen from outside: what the client
    receives, [None] when the handler panicked before it wrote a
    status, and the requests that it passed to
    [http.DefaultClient.Do]. *)
Record Handled : Type := mkHandled {
  written : option Written;
  calls : list Outbound
}.

(** One whole run of the handler for the inbound request [m uri];
    [do] is what [http.DefaultClient.Do] returns for a request.
    The handler has no [defer]: when [forward] panics, the statement
    [server.connCnt--] is not reached.  The server of net/http
    recovers the panic and closes the connection. *)
Definition handler (do : Outbound -> option Response) (m uri : string) (g : Globals)
  : Handled * Globals :=
  match handlerBegin g with
  | (None, g) =>
      (mkHandled (code ← WriteHeader 502; Some (mkWritten code [])) [], g)
  | (Some server, g) =>
      let dst := match mem g !! server with Some s => address s | None => "" end in
      let req := forwardRequest g dst m uri in
      match forward g dst (do req) with
      | Some w => (mkHandled (Some w) [req], handlerEnd server g)
      | None => (mkHandled None [req], g)
      end
  end.

(** *** Interleavings

    Requests are served concurrently: between the choice of a server
    for one request and the end of that request, probes and other
    requests take their turns. *)
Inductive event : Type :=
| Probe (server : nat) (isOnline : bool)
| Arrive
| Finish (server : nat).

(** The state after the events, and the servers chosen by the
    arrivals in order ([None] for a 502). *)
Fixpoint run (evs : list event) (g : Globals) : list (option nat) * Globals :=
  match evs with
  | [] => ([], g)
  | Probe s b :: evs => run evs (healthCheckUp s b g)
  | Arrive :: evs =>
      let '(choice, g) := handlerBegin g in
      let '(choices, g) := run evs g in
      (choice :: choices, g)
  | Finish s :: evs => run evs (handlerEnd s g)
  end.

End lb.


(** ** strconv, base 10 and 64 bits

    [FormatInt(i, 10)] and [ParseInt(s, 10, 64)], the two calls that
    [db.go] makes. *)

Module strconv.









End strconv.

(** ** datastore/db.go: the int64 interface *)




(** ** The balancer that scans the pool

    The revision of [balancer.go] in which the handler looks for the
    server with the fewest connections by a scan of [serversPool],
    with the function [min].  The mutex of a server guards its
    counter and holds no data. *)

Module lb_scan.

Record Server : Type := mkServer { address : string; connCnt : Z }.

(** The loop of [min]: [rest] is [serversPool[i:]]. *)
Fixpoint min_loop (cmpFn : Server -> Server -> bool) (serversPool rest : list Server)
    (i minimumIndex : nat) : nat :=
  match rest with
  | [] => minimumIndex
  | s :: rest' =>
      let minimumIndex :=
        match serversPool !! minimumIndex with
        | Some m => if cmpFn s m then i else minimumIndex
        | None => minimumIndex
        end in
      min_loop cmpFn serversPool rest' (S i) minimumIndex
  end.

(** [min]; [None] is [log.Fatal], which ends the process. *)
Definition min (serversPool : list Server) (cmpFn : Server -> Server -> bool)
  : option nat :=
  if len serversPool =? 0 then None
  else Some (min_loop cmpFn serversPool (drop 1 serversPool) 1 0).

(** The comparison that the handler passes to [min]. *)
Definition fewer (a b : Server) : bool := connCnt a <? connCnt b.

End lb_scan.
(** ** Inputs and notions used in the statements *)

(** A device with one directory, [/db], no file and [free] bytes left. *)
Definition disk (free : Z) : os.FS := os.mkFS {[ "/db" ]} ∅ free.

(** What [NewDb("/db", 45)] leaves on that device: the store, and the
    device with the empty file of the first segment. *)
Definition db0 : Db :=
  mkDb (os.mkFile "/db/current-data0" false) "/db/current-data0" 0 "/db" 45 1
       [mkSegment 0 ∅ "/db/current-data0"] 0.

Definition disk0 (free : Z) : os.FS :=
  os.mkFS {[ "/db" ]} {[ "/db/current-data0" := [] ]} free.

(** The five bytes [01 00 00 00 's']: a value a caller may put. *)
Definition tagged : string :=
  String (ascii_of_nat 1)
    (String (ascii_of_nat 0) (String (ascii_of_nat 0) (String (ascii_of_nat 0) "s"))).

(** The store that [NewDb("/db", 20)] returns on an empty directory. *)
Definition db20 : Db :=
  mkDb (os.mkFile "/db/current-data0" false) "/db/current-data0" 0 "/db" 20 1
       [mkSegment 0 ∅ "/db/current-data0"] 0.

(** That store after [Put("a", tagged)], [Put("b", tagged)] and
    [Put("c", tagged)].  Every frame has 19 bytes, so the second and
    the third put rotate, and the third one starts a merge. *)
Definition threeSegments : World :=
  (Put "c" tagged (Put "b" tagged (Put "a" tagged (disk0 4096, db20)).2).2).2.

(** The frame that [Put(k, v)] writes. *)
Definition frameOf (k v : string) : list byte := Encode (mkEntry k (v +:+ "s") "").

(** Two iteration orders agree on the index of a segment. *)
Definition agree (o1 o2 : gmap string Z -> list (string * Z)) (s : Segment) : Prop :=
  o1 (index s) = o2 (index s).

(** A reader whose file is exhausted and whose buffer holds [B]. *)
Definition drained (B : list byte) : bufio.Reader :=
  bufio.mkReader bufio.defaultBufSize B [] None.

(** The condition of the loop of [Peek]. *)
Definition peek_guard (n : Z) (b : bufio.Reader) : bool :=
  (bufio.Buffered b <? n) && (bufio.Buffered b <? bufio.rd_size b)
  && isNil (bufio.rd_err b).

(** What a reader can still deliver. *)
Definition avail (b : bufio.Reader) : nat :=
  (length (bufio.rd_buf b) + length (bufio.rd_src b))%nat.

(** The reader's pending error is one of Go's. *)
Definition bounded (b : bufio.Reader) : Prop :=
  bufio.rd_err b <> Some ErrLoopBound.

(** One pass of probes over the pool, every backend answering 200. *)
Definition probeAll : list lb.event :=
  [lb.Probe 0 true; lb.Probe 1 true; lb.Probe 2 true].


(** No server is marked online in its own cell. *)
Definition offline (m : list lb.Server) : Prop :=
  Forall (fun s => lb.isServerOnline s = false) m.

(** Steps through the binds of [outcome]. *)
Ltac go := cbn [mbind outcome_bind obind].



(** What [readValue] does after the four bytes that it takes for a
    data type: the rest of its body. *)
Definition readValueTail (in_ : bufio.Reader) : outcome string :=
  let '(res, in_) := bufio.Peek 4 in_ in
  header ← try res;
  valSize ← LittleEndian.Uint32 (slice_of header);
  let '(res, in_) := bufio.Discard 4 in_ in
  _ ← try res;
  let '(res, in_) := bufio.Read valSize in_ in
  got ← try res;
  let n := len got in
  if negb (n =? valSize) then Err (ErrValueBytes n valSize) else
  Ok (string_of_bytes (copy_make valSize got)).




(** The number of probes of [evs] that found their backend healthy. *)
Fixpoint healthyProbes (evs : list lb.event) : nat :=
  match evs with
  | [] => 0
  | lb.Probe _ true :: evs => S (healthyProbes evs)
  | _ :: evs => healthyProbes evs
  end.


(** The file and the offset at which a lookup finds the key. *)
Definition keyPlace (db : Db) (key : string) : option (string * Z) :=
  match getSegmentAndPos db key with
  | Ok (s, p) => Some (filePath s, p)
  | _ => None
  end.


(** Requests that do not overlap: each one ends before the next one
    arrives.  [n] requests, all of them given to [server]. *)
Fixpoint oneByOne (n : nat) (server : nat) : list lb.event :=
  match n with
  | O => []
  | S n' => lb.Arrive :: lb.Finish server :: oneByOne n' server
  end.

(** The result of the latest probe of [server] among [evs], if the
    server has been probed. *)
Fixpoint lastProbe (evs : list lb.event) (server : nat) : option bool :=
  match evs with
  | [] => None
  | ev :: evs =>
      match lastProbe evs server, ev with
      | Some b, _ => Some b
      | None, lb.Probe s b => if bool_decide (s = server) then Some b else None
      | None, _ => None
      end
  end.

(** A live backend: its most recent probe found it healthy. *)
Definition live (evs : list lb.event) (server : nat) : bool :=
  match lastProbe evs server with
  | Some true => true
  | _ => false
  end.

(** The elements of a path: what stands between its separators. *)
Fixpoint elements (path : string) : list string :=
  match path with
  | EmptyString => [EmptyString]
  | String c rest =>
      if Ascii.eqb c "/" then EmptyString :: elements rest
      else match elements rest with
           | e :: es => String c e :: es
           | [] => [String c EmptyString]
           end
  end.

(** An element that [filepath.Clean] keeps. *)
Definition plain (e : string) : bool :=
  negb (String.eqb e EmptyString) && negb (String.eqb e ".") && negb (String.eqb e "..").

Module filepath.

(** The loop of [filepath.Clean], element by element: an empty
    element and [.] are dropped, [..] takes the last element away,
    or is kept at the front of a path that is not rooted.  [out]
    holds the elements kept so far, the last one first. *)
Fixpoint cleanElements (rooted : bool) (out es : list string) : list string :=
  match es with
  | [] => reverse out
  | e :: es =>
      if String.eqb e EmptyString || String.eqb e "." then cleanElements rooted out es
      else if String.eqb e ".." then
        match out with
        | top :: out' =>
            if String.eqb top ".." then cleanElements rooted (e :: out) es
            else cleanElements rooted out' es
        | [] =>
            if rooted then cleanElements rooted out es
            else cleanElements rooted (e :: out) es
        end
      else cleanElements rooted (e :: out) es
  end.

Definition Clean (path : string) : string :=
  match path with
  | EmptyString => "."
  | String c _ =>
      let rooted := Ascii.eqb c "/" in
      let es := cleanElements rooted [] (elements path) in
      if rooted then "/" +:+ String.concat "/" es
      else if bool_decide (es = []) then "." else String.concat "/" es
  end.

(** [filepath.Join(dir, name)]: empty elements are ignored, the rest
    is joined by separators and cleaned. *)
Definition Join (dir name : string) : string :=
  if negb (String.eqb dir EmptyString) then Clean (dir +:+ "/" +:+ name)
  else if negb (String.eqb name EmptyString) then Clean name
  else EmptyString.

End filepath.

(** A directory path [dir] for which [filepath.Join(dir, name)] is
    [dir], a separator and [name]: its elements are plain, but for an
    empty first one when the path is rooted, and there is one at
    least.  The paths [/], [.], the empty path and a path that ends
    in a separator are not of this kind. *)
Definition cleanDir (dir : string) : bool :=
  match elements dir with
  | [] => false
  | first :: rest =>
      let es := if String.eqb first EmptyString then rest else first :: rest in
      negb (bool_decide (es = [])) && forallb plain es
  end.
(** * Properties *)

(** ** Bytes, lengths and little-endian words *)

Lemma Z_of_byte_of_Z z : Z_of_byte (byte_of_Z z) = z mod 256.
Proof.
  unfold byte_of_Z, Z_of_byte.
  pose proof (Z.mod_pos_bound z 256 ltac:(lia)) as Hb.
  destruct (Byte.of_N (Z.to_N (z mod 256))) as [b|] eqn:E.
  - apply Byte.to_of_N in E. rewrite E. lia.
  - apply Byte.of_N_None_iff in E. lia.
Qed.

Lemma le32_PutUint32 v :
  0 <= v < 2 ^ 32 ->
  LittleEndian.le32 (byte_of_Z v) (byte_of_Z (v / 256)) (byte_of_Z (v / 65536))
                    (byte_of_Z (v / 16777216)) = v.
Proof.
  intros Hv. unfold LittleEndian.le32. rewrite !Z_of_byte_of_Z.
  change (2 ^ 32) with 4294967296 in Hv.
  assert (v / 16777216 < 256) by (apply Z.div_lt_upper_bound; lia).
  assert (0 <= v / 16777216) by (apply Z.div_pos; lia).
  rewrite (Z.mod_small (v / 16777216)) by lia.
  pose proof (Z.div_mod v 256 ltac:(lia)).
  pose proof (Z.div_mod (v / 256) 256 ltac:(lia)).
  pose proof (Z.div_mod (v / 65536) 256 ltac:(lia)).
  replace (v / 65536) with (v / 256 / 256) in *
    by (rewrite Z.div_div by lia; reflexivity).
  replace (v / 16777216) with (v / 256 / 256 / 256) in *
    by (rewrite !Z.div_div by lia; reflexivity).
  lia.
Qed.

(** Reading back a word that [PutUint32] stored. *)
Lemma Uint32_PutUint32 v rest n :
  0 <= v < 2 ^ 32 -> 4 <= n ->
  LittleEndian.Uint32 (mkSlice (LittleEndian.PutUint32 v ++ rest) n) = Ok v.
Proof.
  intros Hv Hn. unfold LittleEndian.Uint32. simpl sl_len.
  destruct (Z.leb_spec 4 n); [|lia].
  unfold LittleEndian.PutUint32. simpl. by rewrite le32_PutUint32.
Qed.

Lemma u32_small x : 0 <= x < 2 ^ 32 -> u32 x = x.
Proof. intros. unfold u32. apply Z.mod_small. lia. Qed.

Lemma len_nonneg {A} (l : list A) : 0 <= len l.
Proof. unfold len. lia. Qed.

Lemma len_app {A} (l1 l2 : list A) : len (l1 ++ l2) = len l1 + len l2.
Proof. unfold len. rewrite length_app. lia. Qed.

Lemma len_drop {A} (l : list A) n :
  0 <= n <= len l -> len (drop (Z.to_nat n) l) = len l - n.
Proof. intros H. unfold len in *. rewrite length_drop. lia. Qed.

Lemma take_len {A} (l : list A) n : len l <= n -> take (Z.to_nat n) l = l.
Proof. intros H. apply take_ge. unfold len in H. lia. Qed.

Lemma drop_len {A} (l : list A) n : len l <= n -> drop (Z.to_nat n) l = [].
Proof. intros H. apply drop_ge. unfold len in H. lia. Qed.

Lemma drop_len_app (l1 l2 : list byte) n :
  n = len l1 -> drop (Z.to_nat n) (l1 ++ l2) = l2.
Proof.
  intros ->. unfold len. rewrite Nat2Z.id. by rewrite drop_app_length.
Qed.

Lemma len_PutUint32 v : len (LittleEndian.PutUint32 v) = 4.
Proof. reflexivity. Qed.

Lemma length_bytes_of_string s : length (bytes_of_string s) = String.length s.
Proof.
  unfold bytes_of_string, list_byte_of_string.
  rewrite length_map. induction s; simpl; auto.
Qed.

Lemma len_bytes_of_string s : len (bytes_of_string s) = slen s.
Proof. unfold len, slen. by rewrite length_bytes_of_string. Qed.

Lemma length_string_of_bytes l : String.length (string_of_bytes l) = length l.
Proof.
  unfold string_of_bytes, string_of_list_byte.
  induction l as [|b l IH]; simpl; [reflexivity | by f_equal].
Qed.

Lemma length_append s1 s2 :
  String.length (s1 +:+ s2) = (String.length s1 + String.length s2)%nat.
Proof. induction s1 as [|a s1 IH]; simpl; [reflexivity | by rewrite IH]. Qed.

Lemma slen_app s1 s2 : slen (s1 +:+ s2) = slen s1 + slen s2.
Proof. unfold slen. rewrite length_append. lia. Qed.

Lemma substring_all (s : string) : String.substring 0 (String.length s) s = s.
Proof. induction s as [|a s IH]; simpl; [reflexivity | by rewrite IH]. Qed.

Lemma substring_split (s : string) (m : nat) :
  (m <= String.length s)%nat ->
  String.substring 0 m s +:+ String.substring m (String.length s - m) s = s.
Proof.
  revert m. induction s as [|a s IH]; intros m Hm.
  - simpl in Hm. assert (m = 0%nat) by lia. subst. reflexivity.
  - destruct m as [|m].
    + rewrite Nat.sub_0_r, substring_all. reflexivity.
    + simpl in Hm. simpl.
      transitivity (String a (String.substring 0 m s
                              +:+ String.substring m (String.length s - m) s));
        [reflexivity | by rewrite IH by lia].
Qed.

(** [s[:lo]] and [s[lo:]] make up [s]. *)
Lemma str_from_to s lo t x :
  str_from s lo = Ok t -> str_to s lo = Ok x -> s = x +:+ t.
Proof.
  unfold str_from, str_to. destruct ((0 <=? lo) && (lo <=? slen s)) eqn:E; [|discriminate].
  intros [= <-] [= <-]. apply andb_true_iff in E as [E1 E2].
  symmetry. apply substring_split. unfold slen in E2. lia.
Qed.

Lemma copy_nil src : copy [] src = [].
Proof. unfold copy. simpl length. by rewrite take_0, drop_nil. Qed.

Lemma copy_prefix (buf F : list byte) :
  (length F <= length buf)%nat -> copy buf F = F ++ drop (length F) buf.
Proof. intros H. unfold copy. by rewrite take_ge. Qed.

Lemma len_copy_make n l : 0 <= n -> len (copy_make n l) = n.
Proof.
  intros H. unfold copy_make, len. rewrite length_app, length_take, length_replicate. lia.
Qed.

Lemma slice_from_split (A B : list byte) n lo :
  lo = len A -> lo <= n ->
  slice_from (mkSlice (A ++ B) n) lo = Ok (mkSlice B (n - lo)).
Proof.
  intros -> Hn. unfold slice_from. simpl.
  pose proof (len_nonneg A).
  replace ((0 <=? len A) && (len A <=? n)) with true
    by (symmetry; rewrite andb_true_iff; lia).
  by rewrite (drop_len_app A).
Qed.

Lemma slice_range_ok s lo hi :
  0 <= lo -> lo <= hi -> hi <= cap s -> exists r, slice_range s lo hi = Ok r.
Proof.
  intros H1 H2 H3. unfold slice_range.
  replace ((0 <=? lo) && (lo <=? hi) && (hi <=? cap s)) with true
    by (symmetry; rewrite !andb_true_iff; lia).
  eauto.
Qed.

Lemma try_ok {A} (a : A) : try (a, None) = Ok a.
Proof. reflexivity. Qed.

(** ** The entry codec *)

(** The frame that [Encode] builds has [12 + len(key) + len(value)]
    bytes, whatever [dataType] holds. *)
Lemma Encode_length e : len (Encode e) = slen (key e) + slen (value e) + 12.
Proof.
  unfold Encode. rewrite copy_nil, app_nil_r.
  rewrite !len_app, !len_PutUint32, !len_bytes_of_string. lia.
Qed.

(** For the entries that [Put] and the merge build, whose [dataType] is
    empty, [GetLength] is the length of the encoded frame. *)
Theorem GetLength_is_frame_size k v :
  len (Encode (mkEntry k v "")) = GetLength (mkEntry k v "").
Proof.
  rewrite Encode_length. unfold GetLength, getLength. cbn [key value dataType].
  change (slen "") with 0. lia.
Qed.

Lemma len_frameOf k v : len (frameOf k v) = slen k + slen v + 13.
Proof.
  unfold frameOf. rewrite Encode_length. cbn [key value]. rewrite slen_app.
  change (slen "s") with 1. lia.
Qed.

(** [Decode] on a frame of [Encode], in a slice that may have spare
    capacity behind the frame, as [data = buf[:size]] has in
    [recover]: the third length is read at the end of the frame. *)
Lemma Decode_frame_panics (k v d : string) (spare : list byte) :
  slen k + slen v + 12 < 2 ^ 32 ->
  Decode (mkSlice (Encode (mkEntry k v d) ++ spare) (len (Encode (mkEntry k v d))))
  = Panic IndexOutOfRange.
Proof.
  intros Hsz.
  assert (Hk : 0 <= slen k) by (unfold slen; lia).
  assert (Hv : 0 <= slen v) by (unfold slen; lia).
  pose proof (Encode_length (mkEntry k v d)) as HL. simpl in HL.
  rewrite HL. clear HL.
  unfold Encode. simpl key; simpl value; simpl dataType.
  rewrite copy_nil, app_nil_r, !u32_small by lia.
  remember (slen k + slen v + 12) as n eqn:Hn.
  set (K := bytes_of_string k). set (V := bytes_of_string v).
  assert (HK : len K = slen k) by apply len_bytes_of_string.
  assert (HV : len V = slen v) by apply len_bytes_of_string.
  set (P1 := LittleEndian.PutUint32 n).
  set (P2 := LittleEndian.PutUint32 (slen k)).
  set (P3 := LittleEndian.PutUint32 (slen v)).
  rewrite <- !app_assoc.
  set (input := mkSlice (P1 ++ P2 ++ K ++ P3 ++ V ++ spare) n).
  assert (Hcap : n <= cap input).
  { unfold cap, input. cbn [sl_arr]. rewrite !len_app, HK, HV.
    unfold P1, P2, P3. rewrite !len_PutUint32. pose proof (len_nonneg spare). lia. }
  unfold Decode.
  (* input[4:] holds the key length *)
  assert (E1 : slice_from input 4 = Ok (mkSlice (P2 ++ K ++ P3 ++ V ++ spare) (n - 4)))
    by (apply slice_from_split; [reflexivity | lia]).
  rewrite E1. go.
  unfold P2 at 1. rewrite Uint32_PutUint32 by lia. go.
  (* input[8:kl+8] is in range *)
  rewrite (u32_small (slen k + 8)) by lia.
  destruct (slice_range_ok input 8 (slen k + 8)) as [ks ->]; [lia | lia | lia |].
  go.
  (* input[kl+8:] holds the value length *)
  assert (E2 : slice_from input (slen k + 8)
               = Ok (mkSlice (P3 ++ V ++ spare) (n - (slen k + 8)))).
  { unfold input.
    replace (P1 ++ P2 ++ K ++ P3 ++ V ++ spare) with ((P1 ++ P2 ++ K) ++ P3 ++ V ++ spare)
      by (by rewrite <- !app_assoc).
    apply slice_from_split; [|lia].
    rewrite !len_app, HK. unfold P1, P2. rewrite !len_PutUint32. lia. }
  rewrite E2. go.
  unfold P3 at 1. rewrite Uint32_PutUint32 by lia. go.
  rewrite (u32_small (slen k + 12)), (u32_small (slen k + 12 + slen v)) by lia.
  destruct (slice_range_ok input (slen k + 12) (slen k + 12 + slen v)) as [vs ->];
    [lia | lia | lia |].
  go.
  (* input[kl+12+vl:] has length 0: no third field was written *)
  assert (E3 : slice_from input (slen k + 12 + slen v) = Ok (mkSlice spare 0)).
  { unfold input.
    replace (P1 ++ P2 ++ K ++ P3 ++ V ++ spare) with ((P1 ++ P2 ++ K ++ P3 ++ V) ++ spare)
      by (by rewrite <- !app_assoc).
    replace 0 with (n - (slen k + 12 + slen v)) by lia.
    apply slice_from_split; [|lia].
    rewrite !len_app, HK, HV. unfold P1, P2, P3. rewrite !len_PutUint32. lia. }
  rewrite E3. reflexivity.
Qed.

(** C4, on the code: for every key and value whose frame length fits
    in 32 bits, [Decode] does not return on the bytes that [Encode]
    produced.  After the key and the value it reads a third length at
    offset [kl+12+vl], which is the end of the frame, and
    [binary.LittleEndian.Uint32] panics on the empty rest. *)
Theorem Decode_Encode_panics (k v d : string) :
  slen k + slen v + 12 < 2 ^ 32 ->
  Decode (slice_of (Encode (mkEntry k v d))) = Panic IndexOutOfRange.
Proof.
  intros H. unfold slice_of.
  rewrite <- (app_nil_r (Encode (mkEntry k v d))) at 1.
  by apply Decode_frame_panics.
Qed.

Lemma Decode_Encode_panics_witness :
  slen "1" + slen "as" + 12 < 2 ^ 32 /\
  Decode (slice_of (Encode (mkEntry "1" "as" ""))) = Panic IndexOutOfRange.
Proof.
  split; [reflexivity | apply (Decode_Encode_panics "1" "as" ""); reflexivity].
Defined.

(** [Decode] returns a result only for inputs of four bytes or more,
    and it never returns an error value. *)
Lemma Decode_Ok_len s e : Decode s = Ok e -> 4 <= sl_len s.
Proof.
  unfold Decode, slice_from. intros H.
  destruct (Z.leb_spec 4 (sl_len s)); [assumption|].
  rewrite andb_false_r in H. discriminate.
Qed.

Lemma Decode_not_Err s e : Decode s <> Err e.
Proof.
  unfold Decode, slice_from, slice_range, LittleEndian.Uint32.
  repeat (match goal with
          | |- context [if ?c then _ else _] => destruct c
          | |- context [match ?l with [] => _ | _ :: _ => _ end] => destruct l
          end; go; try discriminate).
Qed.

(** ** The buffered reader *)

(** *** The loops end before their bound *)

Lemma peek_loop_S fuel n b :
  bufio.peek_loop (S fuel) n b
  = if peek_guard n b then bufio.peek_loop fuel n (bufio.fill b) else b.
Proof. reflexivity. Qed.

Lemma fill_empty_src b :
  bufio.rd_src b = [] -> bufio.rd_err (bufio.fill b) = Some EOF.
Proof. intros H. unfold bufio.fill. rewrite H. reflexivity. Qed.

Lemma fill_src_shrinks b :
  bufio.rd_src b <> [] -> bufio.Buffered b < bufio.rd_size b ->
  (length (bufio.rd_src (bufio.fill b)) < length (bufio.rd_src b))%nat.
Proof.
  intros Hne Hroom. unfold bufio.fill, bufio.file_read.
  destruct (bufio.rd_src b) as [|x src] eqn:E; [done|].
  cbn [bufio.rd_src]. rewrite length_drop. simpl length. lia.
Qed.

(** With the fuel that [Peek] gives it, the loop of [Peek] stops
    because its condition fails. *)
Lemma peek_loop_exits fuel n b :
  (length (bufio.rd_src b) + 2 <= fuel)%nat ->
  peek_guard n (bufio.peek_loop fuel n b) = false.
Proof.
  revert b. induction fuel as [|fuel IH]; intros b Hf; [lia|].
  rewrite peek_loop_S.
  destruct (peek_guard n b) eqn:G; [|exact G].
  destruct (bufio.rd_src b) as [|x src] eqn:E.
  - (* the file is exhausted: fill records io.EOF and the loop ends *)
    assert (He : bufio.rd_err (bufio.fill b) = Some EOF) by (by apply fill_empty_src).
    assert (Hg : peek_guard n (bufio.fill b) = false)
      by (unfold peek_guard; rewrite He; by rewrite andb_false_r).
    destruct fuel as [|fuel]; [exact Hg|].
    rewrite peek_loop_S, Hg. exact Hg.
  - apply IH.
    assert (bufio.Buffered b < bufio.rd_size b).
    { unfold peek_guard in G. apply andb_true_iff in G as [G _].
      apply andb_true_iff in G as [_ G]. lia. }
    pose proof (fill_src_shrinks b) as Hs. rewrite E in Hs.
    specialize (Hs ltac:(done) ltac:(assumption)). simpl in Hs, Hf. lia.
Qed.

Lemma discard_loop_total fuel n remain b :
  0 < remain -> 0 < bufio.rd_size b -> bounded b ->
  (avail b < fuel)%nat ->
  (bufio.discard_loop fuel n remain b).1.2 <> Some ErrLoopBound.
Proof.
  unfold bounded, avail.
  revert remain b. induction fuel as [|fuel IH]; intros remain b Hr Hsz He Hf; [lia|].
  cbn [bufio.discard_loop].
  set (b1 := if bufio.Buffered b =? 0 then bufio.fill b else b).
  assert (Hb1 : bufio.rd_size b1 = bufio.rd_size b /\
                bufio.rd_err b1 <> Some ErrLoopBound /\
                (length (bufio.rd_buf b1) + length (bufio.rd_src b1)
                 = length (bufio.rd_buf b) + length (bufio.rd_src b))%nat /\
                (bufio.Buffered b1 = 0 -> bufio.rd_err b1 = Some EOF)).
  { unfold b1. destruct (Z.eqb_spec (bufio.Buffered b) 0) as [Hz|Hnz].
    - unfold bufio.fill, bufio.file_read.
      destruct (bufio.rd_src b) as [|x src] eqn:E; cbn.
      + repeat split; try done. rewrite app_nil_r. lia.
      + repeat split; try done.
        * rewrite length_app, length_take, length_drop. simpl length. lia.
        * unfold bufio.Buffered, len in *. cbn. rewrite length_app, length_take.
          simpl length. intros. lia.
    - repeat split; try done. }
  destruct Hb1 as (Hs1 & He1 & Hlen1 & Hz1).
  set (skip := Z.min (bufio.Buffered b1) remain).
  assert (Hskip : 0 <= skip <= remain)
    by (unfold skip, bufio.Buffered; pose proof (len_nonneg (bufio.rd_buf b1)); lia).
  destruct (Z.eqb_spec (remain - skip) 0) as [Hdone|Hmore]; [cbn; done|].
  cbn [bufio.rd_err].
  destruct (bufio.rd_err b1) as [e|] eqn:Ee.
  - cbn. congruence.
  - assert (Hpos : 0 < bufio.Buffered b1).
    { destruct (Z.eq_dec (bufio.Buffered b1) 0) as [Hz|Hz].
      - specialize (Hz1 Hz). congruence.
      - unfold bufio.Buffered in *. pose proof (len_nonneg (bufio.rd_buf b1)). lia. }
    apply IH; cbn; try lia; try congruence.
    rewrite length_drop. unfold bufio.Buffered, len in *. lia.
Qed.

(** [Discard] never reports the bound of its loop. *)
Lemma Discard_total n b :
  0 < bufio.rd_size b -> bounded b ->
  (bufio.Discard n b).1.2 <> Some ErrLoopBound.
Proof.
  intros Hsz He. unfold bufio.Discard.
  destruct (n <? 0) eqn:E1; [cbn; done|].
  destruct (n =? 0) eqn:E2; [cbn; done|].
  apply discard_loop_total; try done; try lia.
  unfold avail. lia.
Qed.

(** *** What the reader still holds *)

Lemma fill_avail b : avail (bufio.fill b) = avail b.
Proof.
  unfold avail, bufio.fill, bufio.file_read.
  destruct (bufio.rd_src b) as [|x src]; cbn.
  - rewrite app_nil_r. lia.
  - rewrite length_app, length_take, length_drop. simpl length. lia.
Qed.

Lemma fill_bounded b : bounded b -> bounded (bufio.fill b).
Proof.
  unfold bounded, bufio.fill, bufio.file_read.
  destruct (bufio.rd_src b) as [|x src]; cbn; [discriminate | auto].
Qed.

Lemma peek_loop_avail fuel n b :
  avail (bufio.peek_loop fuel n b) = avail b /\
  (bounded b -> bounded (bufio.peek_loop fuel n b)).
Proof.
  revert b. induction fuel as [|fuel IH]; intros b; simpl; [auto|].
  destruct (_ && _); [|auto].
  destruct (IH (bufio.fill b)) as [H1 H2]. split.
  - rewrite H1. apply fill_avail.
  - intros Hb. apply H2. by apply fill_bounded.
Qed.

(** [Peek] consumes nothing. *)
Lemma Peek_avail n b :
  avail (bufio.Peek n b).2 = avail b /\
  (bounded b -> bounded (bufio.Peek n b).2 /\ (bufio.Peek n b).1.2 <> Some ErrLoopBound).
Proof.
  unfold bufio.Peek.
  destruct (n <? 0); [cbn; split; [reflexivity | intros; split; [assumption | discriminate]]|].
  destruct (peek_loop_avail (S (S (length (bufio.rd_src b)))) n b) as [H1 H2].
  remember (bufio.peek_loop (S (S (length (bufio.rd_src b)))) n b) as b1 eqn:Eb1.
  clear Eb1.
  destruct (bufio.rd_size b1 <? n).
  { cbn. split; [exact H1 | intros; split; [auto | discriminate]]. }
  destruct (bufio.Buffered b1 <? n).
  - unfold bufio.readErr. cbn. split; [exact H1|].
    intros Hb. specialize (H2 Hb). split; [unfold bounded; cbn; discriminate|].
    unfold bounded in H2. cbn.
    destruct (bufio.rd_err b1) as [e|]; simpl; [congruence | discriminate].
  - cbn. split; [exact H1 | intros; split; [auto | discriminate]].
Qed.

(** [Read] consumes exactly the bytes it returns. *)
Lemma Read_avail n b :
  (avail (bufio.Read n b).2 + length (bufio.Read n b).1.1 = avail b)%nat /\
  (bounded b -> bounded (bufio.Read n b).2 /\ (bufio.Read n b).1.2 <> Some ErrLoopBound).
Proof.
  destruct b as [size buf src err].
  unfold bufio.Read, bufio.readErr, bufio.file_read, bufio.Buffered, avail, bounded.
  cbn [bufio.rd_buf bufio.rd_size bufio.rd_src bufio.rd_err].
  destruct (n =? 0).
  { destruct (0 <? len buf); cbn; (split; [lia | intros; split; congruence]). }
  destruct buf as [|x buf].
  - change (len (@nil byte) =? 0) with true. cbv iota.
    destruct err as [e|]; [cbn; split; [lia | intros; split; congruence]|].
    destruct src as [|y src].
    + change (len (@nil byte) =? 0) with true.
      destruct (size <=? n); cbn; (split; [lia | intros; split; congruence]).
    + destruct (size <=? n).
      * cbn. split; [rewrite length_take, length_drop; simpl length; lia
                    | intros; split; congruence].
      * destruct (len (take (Z.to_nat size) (y :: src)) =? 0); cbn.
        -- split; [rewrite length_take, length_drop; simpl length; lia
                  | intros; split; congruence].
        -- split; [repeat (rewrite length_take || rewrite length_drop);
                   simpl length; lia
                  | intros; split; congruence].
  - assert (Hnz : (len (x :: buf) =? 0) = false)
      by (apply Z.eqb_neq; unfold len; simpl length; lia).
    rewrite Hnz. cbn.
    split; [rewrite length_take, length_drop; simpl length; lia
           | intros; split; congruence].
Qed.

(** *** A reader that holds the whole rest of the file *)

Lemma fill_fresh F :
  0 < len F -> len F <= bufio.defaultBufSize ->
  bufio.fill (bufio.NewReader F) = drained F.
Proof.
  intros Hpos HF. unfold bufio.fill, bufio.NewReader, bufio.NewReaderSize, bufio.file_read.
  change (bufio.defaultBufSize <? bufio.minReadBufferSize) with false.
  cbn [bufio.rd_src bufio.rd_size bufio.rd_buf bufio.rd_err bufio.Buffered].
  destruct F as [|x F]; [unfold len in Hpos; simpl in Hpos; lia|].
  unfold bufio.Buffered. cbn [bufio.rd_buf]. change (len (@nil byte)) with 0.
  rewrite Z.sub_0_r, take_len, drop_len by lia. reflexivity.
Qed.

Lemma peek_loop_enough fuel n b :
  n <= bufio.Buffered b -> bufio.peek_loop fuel n b = b.
Proof.
  intros H. destruct fuel; [reflexivity|]. rewrite peek_loop_S. unfold peek_guard.
  destruct (Z.ltb_spec (bufio.Buffered b) n); [lia|]. reflexivity.
Qed.

(** The first [Peek] on a file that fits the buffer loads all of it. *)
Lemma Peek_fresh F n :
  0 < n -> n <= len F -> len F <= bufio.defaultBufSize ->
  bufio.Peek n (bufio.NewReader F) = ((take (Z.to_nat n) F, None), drained F).
Proof.
  intros H0 Hn HF. unfold bufio.Peek.
  destruct (Z.ltb_spec n 0); [lia|].
  assert (Hd : bufio.defaultBufSize = 4096) by reflexivity.
  assert (Hl : bufio.peek_loop (S (S (length (bufio.rd_src (bufio.NewReader F))))) n
                 (bufio.NewReader F) = drained F).
  { rewrite peek_loop_S.
    assert (Hg : peek_guard n (bufio.NewReader F) = true).
    { unfold peek_guard.
      change (bufio.Buffered (bufio.NewReader F)) with 0.
      change (bufio.rd_size (bufio.NewReader F)) with 4096.
      destruct (Z.ltb_spec 0 n); [|lia]. reflexivity. }
    rewrite Hg. rewrite fill_fresh by lia.
    destruct (length (bufio.rd_src (bufio.NewReader F))); apply peek_loop_enough;
      unfold bufio.Buffered, drained; cbn [bufio.rd_buf]; lia. }
  rewrite Hl. unfold drained, bufio.Buffered. cbn [bufio.rd_size bufio.rd_buf].
  destruct (Z.ltb_spec bufio.defaultBufSize n); [lia|].
  destruct (Z.ltb_spec (len F) n); [lia|]. reflexivity.
Qed.

Lemma Peek_drained B n :
  0 <= n -> n <= len B -> n <= bufio.defaultBufSize ->
  bufio.Peek n (drained B) = ((take (Z.to_nat n) B, None), drained B).
Proof.
  intros H0 Hn HF. unfold bufio.Peek.
  destruct (Z.ltb_spec n 0); [lia|].
  rewrite peek_loop_enough by (unfold bufio.Buffered, drained; cbn; lia).
  unfold drained, bufio.Buffered. cbn [bufio.rd_size bufio.rd_buf].
  destruct (Z.ltb_spec bufio.defaultBufSize n); [lia|].
  destruct (Z.ltb_spec (len B) n); [lia|]. reflexivity.
Qed.

(** Asking for more than is left meets the end of the file. *)
Lemma Peek_drained_short B n :
  len B < n -> n <= bufio.defaultBufSize ->
  (bufio.Peek n (drained B)).1 = (B, Some EOF).
Proof.
  intros Hn HF. unfold bufio.Peek.
  pose proof (len_nonneg B).
  assert (Hd : bufio.defaultBufSize = 4096) by reflexivity.
  destruct (Z.ltb_spec n 0); [lia|].
  assert (Hl : bufio.peek_loop 2 n (drained B)
               = bufio.mkReader bufio.defaultBufSize B [] (Some EOF)).
  { rewrite peek_loop_S.
    assert (Hg : peek_guard n (drained B) = true).
    { unfold peek_guard, bufio.Buffered, drained.
      cbn [bufio.rd_buf bufio.rd_size bufio.rd_err isNil].
      destruct (Z.ltb_spec (len B) n); [|lia].
      destruct (Z.ltb_spec (len B) bufio.defaultBufSize); [|lia]. reflexivity. }
    rewrite Hg.
    assert (Hf : bufio.fill (drained B)
                 = bufio.mkReader bufio.defaultBufSize B [] (Some EOF)).
    { unfold bufio.fill, bufio.file_read, drained.
      cbn [bufio.rd_src bufio.rd_size bufio.rd_buf bufio.rd_err].
      by rewrite app_nil_r. }
    rewrite Hf, peek_loop_S. unfold peek_guard. cbn [bufio.rd_err isNil].
    by rewrite andb_false_r. }
  change (S (S (length (bufio.rd_src (drained B))))) with 2%nat. rewrite Hl.
  cbn [bufio.rd_size bufio.rd_buf]. unfold bufio.Buffered, bufio.readErr.
  cbn [bufio.rd_size bufio.rd_buf bufio.rd_err bufio.rd_src].
  destruct (Z.ltb_spec bufio.defaultBufSize n); [lia|].
  destruct (Z.ltb_spec (len B) n); [|lia].
  reflexivity.
Qed.

Lemma Discard_drained B n :
  0 < n -> n <= len B ->
  bufio.Discard n (drained B) = ((n, None), drained (drop (Z.to_nat n) B)).
Proof.
  intros H0 Hn. unfold bufio.Discard.
  destruct (Z.ltb_spec n 0); [lia|].
  destruct (Z.eqb_spec n 0); [lia|].
  cbn [bufio.discard_loop].
  unfold bufio.Buffered, drained. cbn [bufio.rd_buf bufio.rd_size bufio.rd_src bufio.rd_err].
  destruct (Z.eqb_spec (len B) 0); [lia|].
  cbn [bufio.rd_buf bufio.rd_size bufio.rd_src bufio.rd_err].
  rewrite Z.min_r by lia. rewrite Z.sub_diag. reflexivity.
Qed.

Lemma Read_drained B n :
  0 < n -> 0 < len B ->
  bufio.Read n (drained B)
  = ((take (Z.to_nat n) B, None), drained (drop (Z.to_nat n) B)).
Proof.
  intros H0 Hn. unfold bufio.Read.
  destruct (Z.eqb_spec n 0); [lia|].
  unfold bufio.Buffered, drained. cbn [bufio.rd_buf bufio.rd_size bufio.rd_src bufio.rd_err].
  destruct (Z.eqb_spec (len B) 0); [lia|]. reflexivity.
Qed.

Lemma Read_drained_le n B : len (bufio.Read n (drained B)).1.1 <= len B.
Proof.
  pose proof (len_nonneg B) as Hnn.
  unfold bufio.Read, bufio.Buffered, drained.
  cbn [bufio.rd_buf bufio.rd_size bufio.rd_src bufio.rd_err bufio.file_read bufio.readErr].
  repeat match goal with
         | |- context [if ?c then _ else _] => destruct c
         end; cbn [fst snd]; try (change (len (@nil byte)) with 0; lia).
  all: unfold len in *; rewrite length_take; simpl length; lia.
Qed.

(** *** readValue on an encoded frame *)

(** On the frame that [Encode] builds, [readValue] takes the four
    bytes of [value_len] for a data type and the first four bytes of
    the value for [value_len]: what it returns, if it returns, lacks
    at least four bytes of the value. *)
Lemma readValue_returns_less k v d r :
  slen k + slen v + 12 <= 4096 ->
  readValue (bufio.NewReader (Encode (mkEntry k v d))) = Ok r ->
  slen r + 4 <= slen v.
Proof.
  intros Hsz.
  assert (Hk : 0 <= slen k) by (unfold slen; lia).
  assert (Hv : 0 <= slen v) by (unfold slen; lia).
  assert (Hd : bufio.defaultBufSize = 4096) by reflexivity.
  pose proof (Encode_length (mkEntry k v d)) as HL. cbn [key value] in HL.
  remember (Encode (mkEntry k v d)) as F eqn:HF.
  unfold Encode in HF. cbn [key value dataType] in HF.
  rewrite copy_nil, app_nil_r, !u32_small in HF by lia.
  set (K := bytes_of_string k) in *. set (V := bytes_of_string v) in *.
  assert (HK : len K = slen k) by apply len_bytes_of_string.
  assert (HV : len V = slen v) by apply len_bytes_of_string.
  set (P1 := LittleEndian.PutUint32 (slen k + slen v + 12)) in *.
  set (P2 := LittleEndian.PutUint32 (slen k)) in *.
  set (P3 := LittleEndian.PutUint32 (slen v)) in *.
  unfold readValue.
  (* the header *)
  rewrite Peek_fresh by lia. rewrite try_ok. go.
  assert (Hh : take (Z.to_nat 8) F = P1 ++ P2).
  { rewrite HF. rewrite (app_assoc P1 P2). by rewrite take_app_length'. }
  rewrite Hh.
  assert (H8 : len (P1 ++ P2) = 8) by reflexivity.
  unfold slice_of. rewrite H8.
  rewrite (slice_from_split P1 P2) by (first [reflexivity | lia]).
  go.
  assert (Hkl : LittleEndian.Uint32 (mkSlice P2 (8 - 4)) = Ok (slen k)).
  { unfold P2. rewrite <- (app_nil_r (LittleEndian.PutUint32 (slen k))).
    apply Uint32_PutUint32; lia. }
  rewrite Hkl. go.
  (* the key is skipped *)
  rewrite Discard_drained by lia. rewrite try_ok. go.
  assert (Hd1 : drop (Z.to_nat (slen k + 8)) F = P3 ++ V).
  { rewrite HF.
    replace (P1 ++ P2 ++ K ++ P3 ++ V) with ((P1 ++ P2 ++ K) ++ P3 ++ V)
      by (by rewrite <- !app_assoc).
    apply drop_len_app. rewrite !len_app, HK. unfold P1, P2.
    rewrite !len_PutUint32. lia. }
  rewrite Hd1.
  (* four bytes are read as a data type: they are the value length *)
  assert (HP3V : len (P3 ++ V) = slen v + 4)
    by (rewrite len_app, HV; unfold P3; rewrite len_PutUint32; lia).
  rewrite Read_drained by lia. rewrite try_ok. go.
  rewrite String.eqb_refl. cbn [negb].
  assert (Hd2 : drop (Z.to_nat 4) (P3 ++ V) = V) by (by apply drop_len_app).
  rewrite Hd2.
  destruct (Z.lt_ge_cases (slen v) 4) as [Hshort|Hlong].
  - (* fewer than four value bytes: io.EOF *)
    destruct (bufio.Peek 4 (drained V)) as [res in4] eqn:E4.
    assert (Hres : res = (V, Some EOF)).
    { pose proof (Peek_drained_short V 4 ltac:(lia) ltac:(lia)) as Hp.
      by rewrite E4 in Hp. }
    rewrite Hres. discriminate.
  - (* at least four: the first four value bytes are taken for the length *)
    rewrite Peek_drained by lia. rewrite try_ok. go.
    destruct (LittleEndian.Uint32 (mkSlice (take (Z.to_nat 4) V) _)) as [valSize| |] eqn:Eu;
      go; try discriminate.
    rewrite Discard_drained by lia. rewrite try_ok. go.
    destruct (bufio.Read valSize (drained (drop (Z.to_nat 4) V))) as [[got err] in6] eqn:Er.
    destruct err as [e|]; [unfold try; cbn; discriminate|]. rewrite try_ok. go.
    destruct (Z.eqb_spec (len got) valSize) as [Hgot|Hgot]; cbn [negb]; [|discriminate].
    (* what is returned is no longer than the rest of the value *)
    assert (Hle : len got <= slen v - 4).
    { pose proof (Read_drained_le valSize (drop (Z.to_nat 4) V)) as Hr.
      rewrite Er in Hr. cbn [fst] in Hr. rewrite len_drop in Hr by lia. lia. }
    intros [= <-].
    unfold slen at 1. rewrite length_string_of_bytes.
    pose proof (len_copy_make valSize got ltac:(pose proof (len_nonneg got); lia)) as Hc.
    unfold len in *. lia.
Qed.

(** C3, on the code: for every key and value whose frame fits the
    reader's buffer, [readValue] on the frame that [Encode] builds
    does not return the value bytes. *)
Theorem readValue_never_returns_value k v d :
  slen k + slen v + 12 <= 4096 ->
  readValue (bufio.NewReader (Encode (mkEntry k v d))) <> Ok v.
Proof.
  intros Hsz Hret. apply readValue_returns_less in Hret; [lia | exact Hsz].
Qed.

Lemma readValue_never_returns_value_witness :
  slen "1" + slen "as" + 12 <= 4096 /\
  readValue (bufio.NewReader (Encode (mkEntry "1" "as" ""))) <> Ok "as".
Proof.
  split; [vm_compute; discriminate |].
  apply (readValue_never_returns_value "1" "as" ""). vm_compute. discriminate.
Defined.

(** The frame for the key ["1"] and the value ["as"]: after the four
    bytes taken for a data type only the two value bytes are left, and
    [readValue] returns [io.EOF]. *)
Example readValue_on_frame :
  readValue (bufio.NewReader (Encode (mkEntry "1" "as" ""))) = Err EOF.
Proof. vm_compute. reflexivity. Qed.

(** ** The store *)

Lemma NewDb_fresh free : NewDb "/db" 45 (disk free) = (Ok db0, disk0 free).
Proof. reflexivity. Qed.

(** *** Lookup in the segments *)

(** The newest segment that holds the key answers the lookup. *)
Lemma getSegmentAndPos_newest db older s newer k pos :
  segments db = older ++ s :: newer ->
  index s !! k = Some pos ->
  Forall (fun s' => index s' !! k = None) newer ->
  getSegmentAndPos db k = Ok (s, pos).
Proof.
  intros Hs Hk Hn. unfold getSegmentAndPos. rewrite Hs.
  rewrite reverse_app, reverse_cons, <- app_assoc.
  apply Forall_reverse in Hn.
  induction Hn as [|s' l Hs' _ IH]; simpl.
  - by rewrite Hk.
  - by rewrite Hs'.
Qed.

Lemma getSegmentAndPos_absent db k :
  Forall (fun s => index s !! k = None) (segments db) ->
  getSegmentAndPos db k = Err ErrNotFound.
Proof.
  intros H. unfold getSegmentAndPos. apply Forall_reverse in H.
  induction H as [|s l Hs _ IH]; simpl; [reflexivity|]. by rewrite Hs.
Qed.

(** *** Put and Get *)

(** A put that needs no rotation and fits the device: the frame is
    appended to the active file, the key is indexed at the old offset
    in the last segment, and nil is sent on [putDone]. *)
Lemma Put_result k v fs db active :
  os.f_closed (out db) = false ->
  len (os.content fs (os.f_name (out db))) + (slen k + slen v + 13) <= segmentSize db ->
  slen k + slen v + 13 <= os.fs_free fs ->
  last (segments db) = Some active ->
  Put k v (fs, db)
  = (Ok (),
     (os.mkFS (os.fs_dirs fs)
              (<[os.f_name (out db) := os.content fs (os.f_name (out db)) ++ frameOf k v]>
                 (os.fs_files fs))
              (os.fs_free fs - len (frameOf k v)),
      set_outOffset (outOffset db + len (frameOf k v))
        (set_segments
           (<[(length (segments db) - 1)%nat :=
                mkSegment (s_outOffset active) (<[k := outOffset db]> (index active))
                          (filePath active)]> (segments db)) db))).
Proof.
  intros Hopen Hsize Hfree Hlast.
  pose proof (len_frameOf k v) as Hframe.
  unfold Put, PutGoroutine, os.StatSize. cbn [fst snd].
  rewrite Hopen.
  assert (HL : GetLength (mkEntry k (v +:+ "s") "") = slen k + slen v + 13).
  { unfold GetLength, getLength. cbn [key value dataType]. rewrite slen_app.
    change (slen "s") with 1. change (slen "") with 0. lia. }
  rewrite HL.
  destruct (Z.ltb_spec (segmentSize db)
              (len (os.content fs (os.f_name (out db))) + (slen k + slen v + 13))); [lia|].
  unfold os.Write. rewrite Hopen. fold (frameOf k v).
  destruct (Z.leb_spec (len (frameOf k v)) (os.fs_free fs)); [|lia].
  unfold IndexGoroutine. cbn [isWrite op_key op_index].
  unfold setKey, getLastSegment. rewrite Hlast. go.
  reflexivity.
Qed.

(** C1, on the code: in every open store whose active file is the
    file of the last segment, a put that needs no rotation and fits
    the device returns nil, and the [Get] of the same key that follows
    does not return the value that was put, whatever the earlier puts
    were.  [Put] writes the frame of [Encode]; [Get] reads it with
    [readValue], which does not return the value of such a frame. *)
Theorem Get_after_Put_never_returns_value k v fs db active :
  os.f_closed (out db) = false ->
  filePath active = os.f_name (out db) ->
  last (segments db) = Some active ->
  outOffset db = len (os.content fs (os.f_name (out db))) ->
  len (os.content fs (os.f_name (out db))) + (slen k + slen v + 13) <= segmentSize db ->
  slen k + slen v + 13 <= os.fs_free fs ->
  slen k + slen v + 13 <= 4096 ->
  (Put k v (fs, db)).1 = Ok () /\ Get k (Put k v (fs, db)).2 <> Ok v.
Proof.
  intros Hopen Hpath Hlast Hoff Hsize Hfree Hbuf.
  rewrite (Put_result k v fs db active) by assumption.
  split; [reflexivity|]. cbn [snd].
  set (active' := mkSegment (s_outOffset active) (<[k := outOffset db]> (index active))
                            (filePath active)).
  unfold Get. cbn [fst snd].
  (* the lookup answers with the active segment and the offset of the frame *)
  assert (Hpos : getPos
            (set_outOffset (outOffset db + len (frameOf k v))
               (set_segments (<[(length (segments db) - 1)%nat := active']> (segments db)) db))
            k = Ok (Some (mkKeyPosition active' (outOffset db)))).
  { unfold getPos, IndexGoroutine. cbn [isWrite op_key].
    pose proof Hlast as Hl. apply last_Some in Hl as [older Hs].
    erewrite getSegmentAndPos_newest with (older := older) (newer := []) (s := active')
                                           (pos := outOffset db).
    - reflexivity.
    - cbn [segments set_outOffset set_segments]. rewrite Hs.
      rewrite length_app. simpl length.
      replace (length older + 1 - 1)%nat with (length older + 0)%nat by lia.
      rewrite insert_app_r. reflexivity.
    - unfold active'. cbn [index]. apply lookup_insert_eq.
    - constructor. }
  rewrite Hpos. cbn [mbind outcome_bind obind segment position].
  (* the reader starts at the frame *)
  unfold getFromSegment, os.OpenReaderAt. unfold active' at 1. cbn [filePath os.fs_files].
  rewrite Hpath, lookup_insert_eq.
  pose proof (len_nonneg (os.content fs (os.f_name (out db)))) as Hnn.
  destruct (Z.ltb_spec (outOffset db) 0); [lia|].
  go.
  rewrite Hoff, (drop_len_app (os.content fs (os.f_name (out db)))) by reflexivity.
  destruct (readValue (bufio.NewReader (frameOf k v))) as [value'| |] eqn:Er;
    go; try discriminate.
  (* and what it reads there is too short to be the value and its tag *)
  apply readValue_returns_less in Er;
    [|rewrite slen_app; change (slen "s") with 1; lia].
  rewrite slen_app in Er. change (slen "s") with 1 in Er.
  destruct (str_from value' (slen value' - 1)) as [tag| |] eqn:Et;
    go; try discriminate.
  destruct (String.eqb_spec tag "s") as [->|Hne]; cbn [negb]; [|discriminate].
  intros Hto.
  pose proof (str_from_to _ _ _ _ Et Hto) as Hv'.
  apply (f_equal slen) in Hv'. rewrite slen_app in Hv'.
  change (slen "s") with 1 in Hv'. lia.
Qed.

Lemma Get_after_Put_never_returns_value_witness :
  let active := mkSegment 0 ∅ "/db/current-data0" in
  let fs := disk0 4096 in
  (os.f_closed (out db0) = false) /\
  (filePath active = os.f_name (out db0)) /\
  (last (segments db0) = Some active) /\
  (outOffset db0 = len (os.content fs (os.f_name (out db0)))) /\
  (len (os.content fs (os.f_name (out db0))) + (slen "1" + slen "a" + 13)
     <= segmentSize db0) /\
  (slen "1" + slen "a" + 13 <= os.fs_free fs) /\
  (slen "1" + slen "a" + 13 <= 4096) /\
  (Put "1" "a" (fs, db0)).1 = Ok () /\
  Get "1" (Put "1" "a" (fs, db0)).2 <> Ok "a".
Proof.
  cbv zeta.
  assert (H1 : os.f_closed (out db0) = false) by reflexivity.
  assert (H2 : filePath (mkSegment 0 ∅ "/db/current-data0") = os.f_name (out db0))
    by reflexivity.
  assert (H3 : last (segments db0) = Some (mkSegment 0 ∅ "/db/current-data0"))
    by reflexivity.
  assert (H4 : outOffset db0 = len (os.content (disk0 4096) (os.f_name (out db0))))
    by reflexivity.
  assert (H5 : len (os.content (disk0 4096) (os.f_name (out db0)))
               + (slen "1" + slen "a" + 13) <= segmentSize db0)
    by (vm_compute; discriminate).
  assert (H6 : slen "1" + slen "a" + 13 <= os.fs_free (disk0 4096))
    by (vm_compute; discriminate).
  assert (H7 : slen "1" + slen "a" + 13 <= 4096) by (vm_compute; discriminate).
  repeat (split; [assumption|]).
  exact (Get_after_Put_never_returns_value "1" "a" (disk0 4096) db0
           (mkSegment 0 ∅ "/db/current-data0") H1 H2 H3 H4 H5 H6 H7).
Defined.

(** The store opened on an empty directory: [Put("1", "a")] returns
    nil and [Get("1")] returns [io.EOF]. *)
Example Get_after_Put_fails :
  NewDb "/db" 45 (disk 4096) = (Ok db0, disk0 4096) /\
  (Put "1" "a" (disk0 4096, db0)).1 = Ok () /\
  Get "1" (Put "1" "a" (disk0 4096, db0)).2 = Err EOF.
Proof. vm_compute. repeat split; reflexivity. Qed.


(** *** Write errors *)

(** C2, on the code: when the write of the frame fails for lack of
    space, [PutGoroutine] still sends nil on [putDone], so [Put]
    returns nil and the error of [Write] reaches nobody.  The store is
    left as it was: the key is not indexed. *)
Theorem Put_write_error_is_dropped k v fs db :
  os.f_closed (out db) = false ->
  len (os.content fs (os.f_name (out db))) + GetLength (mkEntry k (v +:+ "s") "")
    <= segmentSize db ->
  os.fs_free fs < len (frameOf k v) ->
  exists n fs',
    os.Write fs (out db) (frameOf k v) = ((n, Some ErrNoSpace), fs') /\
    Put k v (fs, db) = (Ok (), (fs', db)).
Proof.
  intros Hopen Hsize Hfree.
  unfold Put, PutGoroutine, os.StatSize. cbn [fst snd]. rewrite Hopen.
  destruct (Z.ltb_spec (segmentSize db)
              (len (os.content fs (os.f_name (out db)))
               + GetLength (mkEntry k (v +:+ "s") ""))); [lia|].
  fold (frameOf k v).
  unfold os.Write. rewrite Hopen.
  destruct (Z.leb_spec (len (frameOf k v)) (os.fs_free fs)); [lia|].
  eexists _, _. split; reflexivity.
Qed.

Lemma Put_write_error_is_dropped_witness :
  (os.f_closed (out db0) = false) /\
  (len (os.content (disk0 5) (os.f_name (out db0))) + GetLength (mkEntry "1" ("a" +:+ "s") "")
     <= segmentSize db0) /\
  (os.fs_free (disk0 5) < len (frameOf "1" "a")) /\
  exists n fs',
    os.Write (disk0 5) (out db0) (frameOf "1" "a") = ((n, Some ErrNoSpace), fs') /\
    Put "1" "a" (disk0 5, db0) = (Ok (), (fs', db0)).
Proof.
  assert (H1 : os.f_closed (out db0) = false) by reflexivity.
  assert (H2 : len (os.content (disk0 5) (os.f_name (out db0)))
               + GetLength (mkEntry "1" ("a" +:+ "s") "") <= segmentSize db0)
    by (vm_compute; discriminate).
  assert (H3 : os.fs_free (disk0 5) < len (frameOf "1" "a")) by reflexivity.
  repeat (split; [assumption|]).
  exact (Put_write_error_is_dropped "1" "a" (disk0 5) db0 H1 H2 H3).
Defined.

(** On a device with five free bytes the write of the 15-byte frame
    stops after five bytes; [Put] returns nil, the index is as it was
    and [Get] does not find the key. *)
Example Put_hides_write_error :
  NewDb "/db" 45 (disk 5) = (Ok db0, disk0 5) /\
  (os.Write (disk0 5) (out db0) (frameOf "1" "a")).1 = (5, Some ErrNoSpace) /\
  (Put "1" "a" (disk0 5, db0)).1 = Ok () /\
  segments (Put "1" "a" (disk0 5, db0)).2.2 = segments db0 /\
  Get "1" (Put "1" "a" (disk0 5, db0)).2 = Err ErrNotFound.
Proof. vm_compute. repeat split; reflexivity. Qed.

(** The other half of the completion signal: a write that succeeds is
    followed by the index update and by nil on [putDone]. *)
Theorem Put_appends k v fs db active :
  os.f_closed (out db) = false ->
  len (os.content fs (os.f_name (out db))) + (slen k + slen v + 13) <= segmentSize db ->
  slen k + slen v + 13 <= os.fs_free fs ->
  last (segments db) = Some active ->
  exists fs' db',
    Put k v (fs, db) = (Ok (), (fs', db')) /\
    os.content fs' (os.f_name (out db))
      = os.content fs (os.f_name (out db)) ++ frameOf k v /\
    last (segments db')
      = Some (mkSegment (s_outOffset active) (<[k := outOffset db]> (index active))
                        (filePath active)) /\
    length (segments db') = length (segments db) /\
    outOffset db' = outOffset db + len (frameOf k v).
Proof.
  intros Hopen Hsize Hfree Hlast.
  rewrite (Put_result k v fs db active) by assumption.
  eexists _, _. split; [reflexivity|].
  cbn [segments outOffset set_segments set_outOffset].
  repeat split.
  - unfold os.content. cbn [os.fs_files]. by rewrite lookup_insert_eq.
  - rewrite last_lookup, length_insert.
    assert (Hlt : (Nat.pred (length (segments db)) < length (segments db))%nat).
    { destruct (segments db); [discriminate | simpl; lia]. }
    replace (length (segments db) - 1)%nat with (Nat.pred (length (segments db))) by lia.
    by rewrite list_lookup_insert_eq.
  - by rewrite length_insert.
Qed.

Lemma Put_appends_witness :
  (os.f_closed (out db0) = false) /\
  (len (os.content (disk0 4096) (os.f_name (out db0))) + (slen "1" + slen "a" + 13)
     <= segmentSize db0) /\
  (slen "1" + slen "a" + 13 <= os.fs_free (disk0 4096)) /\
  (last (segments db0) = Some (mkSegment 0 ∅ "/db/current-data0")) /\
  exists fs' db',
    Put "1" "a" (disk0 4096, db0) = (Ok (), (fs', db')) /\
    os.content fs' (os.f_name (out db0))
      = os.content (disk0 4096) (os.f_name (out db0)) ++ frameOf "1" "a" /\
    last (segments db')
      = Some (mkSegment (s_outOffset (mkSegment 0 ∅ "/db/current-data0"))
                        (<["1" := outOffset db0]> (index (mkSegment 0 ∅ "/db/current-data0")))
                        (filePath (mkSegment 0 ∅ "/db/current-data0"))) /\
    length (segments db') = length (segments db0) /\
    outOffset db' = outOffset db0 + len (frameOf "1" "a").
Proof.
  assert (H1 : os.f_closed (out db0) = false) by reflexivity.
  assert (H2 : len (os.content (disk0 4096) (os.f_name (out db0)))
               + (slen "1" + slen "a" + 13) <= segmentSize db0)
    by (vm_compute; discriminate).
  assert (H3 : slen "1" + slen "a" + 13 <= os.fs_free (disk0 4096))
    by (vm_compute; discriminate).
  assert (H4 : last (segments db0) = Some (mkSegment 0 ∅ "/db/current-data0"))
    by reflexivity.
  repeat (split; [assumption|]).
  exact (Put_appends "1" "a" (disk0 4096) db0 (mkSegment 0 ∅ "/db/current-data0")
           H1 H2 H3 H4).
Defined.

(** A key that no segment indexes is not found: a write that was not
    indexed cannot be observed. *)
Theorem Get_absent k w :
  Forall (fun s => index s !! k = None) (segments w.2) ->
  Get k w = Err ErrNotFound.
Proof.
  intros H. unfold Get, getPos, IndexGoroutine. cbn [isWrite op_key].
  by rewrite getSegmentAndPos_absent.
Qed.

Lemma Get_absent_witness :
  Forall (fun s => index s !! "1" = None) (segments (disk0 4096, db0).2) /\
  Get "1" (disk0 4096, db0) = Err ErrNotFound.
Proof.
  assert (H : Forall (fun s => index s !! "1" = None) (segments (disk0 4096, db0).2))
    by (repeat constructor).
  split; [exact H | exact (Get_absent "1" (disk0 4096, db0) H)].
Defined.

(** *** Close *)

(** [Close] leaves the active file handle closed, whatever it returns. *)
Lemma Close_closes w : os.f_closed (out (Close w).2.2) = true.
Proof.
  unfold Close, os.Close. destruct (os.f_closed (out w.2)) eqn:E; simpl; auto.
Qed.

(** C10, as amended: once the active file handle is closed, [Put]
    returns the error of [Stat] on the closed file; nothing is written
    and neither the index nor any other part of the store changes. *)
Theorem Put_after_Close_reports_closed key value w :
  os.f_closed (out w.2) = true -> Put key value w = (Err ErrClosed, w).
Proof.
  intros H. unfold Put, PutGoroutine, os.StatSize. rewrite H. reflexivity.
Qed.

Lemma Put_after_Close_reports_closed_witness :
  os.f_closed (out (Close (disk0 4096, db0)).2.2) = true /\
  Put "2" "b" (Close (disk0 4096, db0)).2 = (Err ErrClosed, (Close (disk0 4096, db0)).2).
Proof.
  split.
  - apply Close_closes.
  - apply (Put_after_Close_reports_closed "2" "b"). apply Close_closes.
Defined.

(** C10 as stated fails: after [Close], [Put] does not return nil. *)
Lemma Put_after_Close_is_not_nil :
  NewDb "/db" 45 (disk 4096) = (Ok db0, disk0 4096) /\
  (Close (disk0 4096, db0)).1 = Ok () /\
  (Put "2" "b" (Close (disk0 4096, db0)).2).1 <> Ok ().
Proof. vm_compute. split; [reflexivity | split; [reflexivity | discriminate]]. Qed.

(** *** Recovery *)

Lemma setKey_not_Err k n db e : setKey k n db <> Err e.
Proof.
  unfold setKey, getLastSegment. destruct (last (segments db)); cbn; discriminate.
Qed.

Lemma recover_loop_total fuel b buf db :
  bounded b -> (avail b < fuel)%nat ->
  (recover_loop fuel b buf db).1 <> Err ErrLoopBound.
Proof.
  revert b buf db. induction fuel as [|fuel IH]; intros b buf db Hb Hf; [lia|].
  cbn [recover_loop].
  destruct (bufio.Peek bufSize b) as [[header perr] b1] eqn:Ep.
  pose proof (Peek_avail bufSize b) as [Ha1 Hb1]. rewrite Ep in Ha1, Hb1.
  cbn [fst snd] in Ha1, Hb1. destruct (Hb1 Hb) as [Hb1' Hperr].
  assert (Hstop : forall e, match perr with
                             | Some EOF => if len header =? 0 then Some EOF else None
                             | Some e => Some e
                             | None => None
                             end = Some e -> e <> ErrLoopBound).
  { intros e He. destruct perr as [[]|]; try (destruct (len header =? 0));
      inversion He; subst; congruence. }
  destruct (match perr with
            | Some EOF => if len header =? 0 then Some EOF else None
            | Some e => Some e
            | None => None
            end) as [e|] eqn:Es.
  { cbn. intros Heq. apply (Hstop e eq_refl). congruence. }
  destruct (LittleEndian.Uint32 (slice_of header)) as [size| |] eqn:Eu;
    [|unfold LittleEndian.Uint32 in Eu;
      repeat match type of Eu with
             | context [if ?c then _ else _] => destruct c
             | context [match ?l with [] => _ | _ :: _ => _ end] => destruct l
             end; discriminate
     |cbn; discriminate].
  destruct (bufio.Read size b1) as [[got rerr] b2] eqn:Er.
  pose proof (Read_avail size b1) as [Ha2 Hb2]. rewrite Er in Ha2, Hb2.
  cbn [fst snd] in Ha2, Hb2. destruct (Hb2 Hb1') as [Hb2' Hrerr].
  destruct rerr as [e|]; [cbn; congruence|].
  destruct (Z.eqb_spec (len got) size) as [Hn|Hn]; cbn [negb]; [|cbn; discriminate].
  set (data := if size <? bufSize then mkSlice (copy buf got) size
               else mkSlice (copy_make size got) size).
  destruct (Decode data) as [e| |] eqn:Ed; go;
    [|exfalso; by eapply Decode_not_Err | cbn; discriminate].
  destruct (setKey (key e) (len got) db) as [db'|e'|p] eqn:Ek;
    [|exfalso; by eapply setKey_not_Err | cbn; discriminate].
  apply IH; [exact Hb2'|].
  apply Decode_Ok_len in Ed.
  assert (sl_len data = size) by (unfold data; destruct (size <? bufSize); reflexivity).
  unfold len in Hn. lia.
Qed.

(** The scan of [recover] ends before its bound: every turn that
    goes on has consumed a frame of at least twelve bytes. *)
Theorem recover_total fs db : (recover fs db).1 <> Err ErrLoopBound.
Proof.
  unfold recover. apply recover_loop_total.
  - destruct (os.f_closed (out db)); unfold bounded; cbn; discriminate.
  - destruct (os.f_closed (out db)); unfold avail; cbn; lia.
Qed.

Lemma peek_loop_recover C :
  C <> [] ->
  bufio.peek_loop (S (S (length C))) bufSize (bufio.mkReader bufSize [] C None)
  = bufio.mkReader bufSize (take (Z.to_nat bufSize) C) (drop (Z.to_nat bufSize) C)
                   (if len C <? bufSize then Some EOF else None).
Proof.
  intros HC.
  assert (Hsz : bufSize = 8192) by reflexivity.
  set (b1 := bufio.mkReader bufSize (take (Z.to_nat bufSize) C)
                            (drop (Z.to_nat bufSize) C) None).
  assert (Hfill : bufio.fill (bufio.mkReader bufSize [] C None) = b1).
  { unfold bufio.fill, bufio.file_read, bufio.Buffered.
    cbn [bufio.rd_src bufio.rd_size bufio.rd_buf bufio.rd_err].
    destruct C as [|x C]; [done|].
    change (len (@nil byte)) with 0. rewrite Z.sub_0_r. reflexivity. }
  rewrite peek_loop_S. unfold peek_guard.
  unfold bufio.Buffered at 1 2. cbn [bufio.rd_buf bufio.rd_size bufio.rd_err isNil].
  change (len (@nil byte) <? bufSize) with true. cbn [andb]. rewrite Hfill.
  assert (Hb1 : bufio.Buffered b1 = Z.min bufSize (len C)).
  { unfold bufio.Buffered, b1, len. cbn [bufio.rd_buf]. rewrite length_take. lia. }
  rewrite peek_loop_S. unfold peek_guard. rewrite Hb1.
  change (bufio.rd_size b1) with bufSize. change (bufio.rd_err b1) with (@None error).
  destruct (Z.ltb_spec (len C) bufSize) as [Hshort|Hlong].
  - (* the file is shorter than the buffer: a second fill meets the end *)
    assert (Hdrop : drop (Z.to_nat bufSize) C = []) by (apply drop_ge; unfold len in *; lia).
    destruct (Z.ltb_spec (Z.min bufSize (len C)) bufSize); [|lia].
    cbn [andb isNil].
    assert (Hfill2 : bufio.fill b1
                     = bufio.mkReader bufSize (take (Z.to_nat bufSize) C) [] (Some EOF)).
    { unfold bufio.fill, bufio.file_read, b1.
      cbn [bufio.rd_src bufio.rd_size bufio.rd_buf bufio.rd_err]. rewrite Hdrop.
      by rewrite app_nil_r. }
    rewrite Hfill2, Hdrop.
    destruct (length C) as [|f]; [reflexivity|]. rewrite peek_loop_S. unfold peek_guard.
    cbn [bufio.rd_err isNil]. by rewrite andb_false_r.
  - destruct (Z.ltb_spec (Z.min bufSize (len C)) bufSize); [lia|]. reflexivity.
Qed.

(** The first [Peek(bufSize)] of [recover] on a file that is not
    empty: the header is what one read of the file delivers. *)
Lemma Peek_recover C :
  C <> [] ->
  exists err,
    bufio.Peek bufSize (bufio.NewReaderSize C bufSize)
    = ((take (Z.to_nat bufSize) C, err),
       bufio.mkReader bufSize (take (Z.to_nat bufSize) C) (drop (Z.to_nat bufSize) C) None)
    /\ (err = None \/ err = Some EOF).
Proof.
  intros HC.
  unfold bufio.Peek. change (bufSize <? 0) with false. cbv iota.
  unfold bufio.NewReaderSize. change (bufSize <? bufio.minReadBufferSize) with false.
  cbv iota. cbn [bufio.rd_src]. cbv zeta.
  rewrite peek_loop_recover by assumption.
  cbn [bufio.rd_size bufio.rd_buf]. rewrite Z.ltb_irrefl.
  unfold bufio.Buffered, bufio.readErr. cbn [bufio.rd_buf bufio.rd_size bufio.rd_src bufio.rd_err].
  assert (Hlt : len (take (Z.to_nat bufSize) C) = Z.min bufSize (len C)).
  { unfold len. rewrite length_take. unfold bufSize. lia. }
  rewrite Hlt.
  destruct (Z.ltb_spec (len C) bufSize) as [Hshort|Hlong].
  - destruct (Z.ltb_spec (Z.min bufSize (len C)) bufSize); [|lia].
    exists (Some EOF). split; [reflexivity | by right].
  - destruct (Z.ltb_spec (Z.min bufSize (len C)) bufSize); [lia|].
    exists None. rewrite take_take, Nat.min_id. split; [reflexivity | by left].
Qed.

(** [recover] on a file that starts with a frame of [Encode]: the
    frame is read into the array and [Decode] reads past its end. *)
Lemma recover_panics_on_frame fs db k v d rest :
  os.f_closed (out db) = false ->
  os.content fs (os.f_name (out db)) = Encode (mkEntry k v d) ++ rest ->
  slen k + slen v + 12 < bufSize ->
  recover fs db = (Panic IndexOutOfRange, db).
Proof.
  intros Hopen HC Hsz.
  assert (Hb : bufSize = 8192) by reflexivity.
  assert (Hk : 0 <= slen k) by (unfold slen; lia).
  assert (Hv : 0 <= slen v) by (unfold slen; lia).
  pose proof (Encode_length (mkEntry k v d)) as HL. cbn [key value] in HL.
  unfold recover. rewrite Hopen, HC.
  set (F := Encode (mkEntry k v d)) in *.
  set (C := F ++ rest).
  assert (HCne : C <> []).
  { unfold C. intros HC0. apply (f_equal len) in HC0. rewrite len_app, HL in HC0.
    pose proof (len_nonneg rest). change (len (@nil byte)) with 0 in HC0. lia. }
  assert (HlenC : len F <= len C)
    by (unfold C; rewrite len_app; pose proof (len_nonneg rest); lia).
  cbn [recover_loop].
  destruct (Peek_recover C HCne) as (err & -> & Herr).
  set (header := take (Z.to_nat bufSize) C).
  assert (Hhl : len header = Z.min bufSize (len C)).
  { unfold header, len. rewrite length_take. lia. }
  assert (Hstop : match err with
                  | Some EOF => if len header =? 0 then Some EOF else None
                  | Some e => Some e
                  | None => None
                  end = None).
  { destruct Herr as [-> | ->]; [reflexivity|].
    destruct (Z.eqb_spec (len header) 0); [lia | reflexivity]. }
  rewrite Hstop.
  (* the declared size of the frame *)
  assert (HF : exists tl, F = LittleEndian.PutUint32 (slen k + slen v + 12) ++ tl).
  { unfold F, Encode. cbn [key value dataType]. rewrite u32_small by lia. eauto. }
  destruct HF as [tl HF].
  assert (Hhead : exists tl', header
                  = LittleEndian.PutUint32 (slen k + slen v + 12) ++ tl').
  { unfold header, C. rewrite HF, <- app_assoc.
    rewrite take_app_ge by (simpl length; lia). eauto. }
  destruct Hhead as [tl' Hhead].
  assert (Hu : LittleEndian.Uint32 (slice_of header) = Ok (slen k + slen v + 12)).
  { unfold slice_of. rewrite Hhl. rewrite Hhead. apply Uint32_PutUint32; lia. }
  rewrite Hu.
  (* the frame is read into the array *)
  set (size := slen k + slen v + 12) in *.
  unfold bufio.Read. destruct (Z.eqb_spec size 0); [lia|].
  unfold bufio.Buffered. cbn [bufio.rd_buf bufio.rd_size bufio.rd_src bufio.rd_err].
  fold header. rewrite Hhl.
  destruct (Z.eqb_spec (Z.min bufSize (len C)) 0); [lia|].
  assert (Hgot : take (Z.to_nat size) header = F).
  { unfold header. rewrite take_take.
    replace (Z.to_nat size `min` Z.to_nat bufSize)%nat with (Z.to_nat size) by lia.
    unfold C. rewrite take_app_length'; [reflexivity|]. unfold len in HL. lia. }
  rewrite Hgot, HL. rewrite Z.eqb_refl. cbn [negb].
  destruct (Z.ltb_spec size bufSize); [|lia].
  rewrite copy_prefix by (rewrite length_replicate; unfold len in HL; lia).
  assert (Hdec : Decode (mkSlice (F ++ drop (length F) (replicate (Z.to_nat bufSize) x00))
                                  size) = Panic IndexOutOfRange).
  { rewrite <- HL. unfold F. apply Decode_frame_panics. lia. }
  rewrite Hdec. reflexivity.
Qed.

Lemma dirname_join root : os.dirname (root +:+ "/current-data0") = Some root.
Proof.
  induction root as [|c root IH]; [reflexivity|].
  change (String c root +:+ "/current-data0") with (String c (root +:+ "/current-data0")).
  simpl os.dirname. by rewrite IH.
Qed.

(** C6, on the code: whenever the first segment file of the directory
    starts with a frame that [Encode] built, that is, whenever a put
    was stored before the close, [NewDb] on that directory does not
    return a store: it panics in [recover], where [Decode] reads past
    the end of the frame. *)
Theorem NewDb_panics_on_stored_frame root size fs k v d rest :
  root ∈ os.fs_dirs fs ->
  os.fs_files fs !! (root +:+ "/current-data0") = Some (Encode (mkEntry k v d) ++ rest) ->
  slen k + slen v + 12 < bufSize ->
  (NewDb root size fs).1 = Panic IndexOutOfRange.
Proof.
  intros Hdir Hfile Hsz. unfold NewDb, createNewSegment, generateNewFileName.
  cbn [dir lastSegmentIndex set_lastSegmentIndex].
  change (outFileName +:+ pretty 0) with "current-data0".
  change (root +:+ "/" +:+ "current-data0") with (root +:+ "/current-data0").
  unfold os.OpenFile. rewrite dirname_join.
  rewrite bool_decide_eq_true_2 by assumption.
  cbn [set_out set_outOffset set_outPath set_segments segments app len length].
  change (3 <=? Z.of_nat 1) with false. cbv iota.
  erewrite recover_panics_on_frame with (k := k) (v := v) (d := d) (rest := rest);
    [reflexivity | reflexivity | | assumption].
  cbn [out os.f_name]. unfold os.content at 1. cbn [os.fs_files].
  rewrite lookup_insert_eq. unfold os.content. by rewrite Hfile.
Qed.

Lemma NewDb_panics_on_stored_frame_witness :
  let fs := (Close (Put "1" "a" (disk0 4096, db0)).2).2.1 in
  ("/db" ∈ os.fs_dirs fs) /\
  (os.fs_files fs !! ("/db" +:+ "/current-data0")
   = Some (Encode (mkEntry "1" "as" "") ++ [])) /\
  (slen "1" + slen "as" + 12 < bufSize) /\
  (NewDb "/db" 45 fs).1 = Panic IndexOutOfRange.
Proof.
  cbv zeta.
  assert (H1 : "/db" ∈ os.fs_dirs (Close (Put "1" "a" (disk0 4096, db0)).2).2.1)
    by (vm_compute; set_solver).
  assert (H2 : os.fs_files (Close (Put "1" "a" (disk0 4096, db0)).2).2.1
                 !! ("/db" +:+ "/current-data0")
               = Some (Encode (mkEntry "1" "as" "") ++ []))
    by (vm_compute; reflexivity).
  assert (H3 : slen "1" + slen "as" + 12 < bufSize) by reflexivity.
  repeat (split; [assumption|]).
  exact (NewDb_panics_on_stored_frame "/db" 45 _ "1" "as" "" [] H1 H2 H3).
Defined.

(** A store that holds one entry is closed and opened again. *)
Example reopen_panics :
  (Put "1" "a" (disk0 4096, db0)).1 = Ok () /\
  (Close (Put "1" "a" (disk0 4096, db0)).2).1 = Ok () /\
  (NewDb "/db" 45 (Close (Put "1" "a" (disk0 4096, db0)).2).2.1).1
  = Panic IndexOutOfRange.
Proof. vm_compute. repeat split; reflexivity. Qed.

(** *** The merge *)

Lemma mergeLoop_ext o1 o2 f frozen st :
  Forall (agree o1 o2) frozen ->
  mergeLoop o1 f frozen st = mergeLoop o2 f frozen st.
Proof.
  intros H. revert st. induction H as [|s newer Hs _ IH]; intros st; simpl.
  - reflexivity.
  - unfold agree in Hs. rewrite Hs. apply IH.
Qed.

(** The merge depends on the iteration order only through the order in
    which the index of each segment is visited. *)
Lemma runMerge_ext o1 o2 w :
  Forall (agree o1 o2) (segments w.2) -> runMerge o1 w = runMerge o2 w.
Proof.
  intros H. destruct w as [fs db]. unfold runMerge.
  destruct (generateNewFileName _) as [filePath db'] eqn:Eg.
  assert (Hseg : segments db' = segments db).
  { unfold generateNewFileName in Eg. inversion Eg. reflexivity. }
  destruct (os.OpenFile fs filePath) as [[f|e|p] fs']; try reflexivity.
  rewrite (mergeLoop_ext o1 o2); [reflexivity|].
  rewrite Hseg. simpl in H. by apply Forall_take.
Qed.

Lemma rangeOrder_singleton (o : gmap string Z -> list (string * Z)) m kv :
  (forall m, o m ≡ₚ map_to_list m) -> map_to_list m = [kv] -> o m = map_to_list m.
Proof.
  intros Hp Hm. specialize (Hp m). rewrite Hm in *.
  by apply Permutation_singleton_r in Hp.
Qed.



(** C5, on the code, for every order in which Go may visit a map: in
    the state [threeSegments] the store has three segments and a merge
    has been started; [Get("a")] returns a value.  After the merge
    there are two segments, and [Get("a")] fails: the merge copied
    what [readValue] returned for the old frame, and the new frame is
    misread in another way. *)
Theorem merge_loses_readable_key rangeOrder :
  (forall m, rangeOrder m ≡ₚ map_to_list m) ->
  len (segments threeSegments.2) = 3 /\ merges threeSegments.2 = 1%nat /\
  Get "a" threeSegments = Ok "" /\
  (runMerge rangeOrder threeSegments).1 = Ok () /\
  len (segments (runMerge rangeOrder threeSegments).2.2) = 2 /\
  Get "a" (runMerge rangeOrder threeSegments).2 = Err (ErrValueBytes 11 3699).
Proof.
  intros Hp.
  rewrite (runMerge_ext rangeOrder map_to_list).
  - vm_compute. repeat split; reflexivity.
  - remember (segments threeSegments.2) as l eqn:El. vm_compute in El. subst l.
    repeat (apply Forall_cons; split;
            [unfold agree; cbn [index]; eapply rangeOrder_singleton;
             [exact Hp | vm_compute; reflexivity] |]).
    apply Forall_nil. exact I.
Qed.

Lemma merge_loses_readable_key_witness :
  (forall m : gmap string Z, map_to_list m ≡ₚ map_to_list m) /\
  len (segments threeSegments.2) = 3 /\ merges threeSegments.2 = 1%nat /\
  Get "a" threeSegments = Ok "" /\
  (runMerge map_to_list threeSegments).1 = Ok () /\
  len (segments (runMerge map_to_list threeSegments).2.2) = 2 /\
  Get "a" (runMerge map_to_list threeSegments).2 = Err (ErrValueBytes 11 3699).
Proof.
  split; [reflexivity |].
  apply (merge_loses_readable_key map_to_list). reflexivity.
Defined.

(** The state [threeSegments] is reached from [NewDb] on an empty
    directory by three puts that return nil. *)
Example threeSegments_reached :
  NewDb "/db" 20 (disk 4096) = (Ok db20, disk0 4096) /\
  (Put "a" tagged (disk0 4096, db20)).1 = Ok () /\
  (Put "b" tagged (Put "a" tagged (disk0 4096, db20)).2).1 = Ok () /\
  (Put "c" tagged (Put "b" tagged (Put "a" tagged (disk0 4096, db20)).2).2).1 = Ok ().
Proof. vm_compute. repeat split; reflexivity. Qed.

(** ** The balancer *)

(** *** The loops of container/heap end before their bound *)

Lemma down_loop_stable fuel m h i n :
  0 <= i -> (Z.to_nat (n - i) < fuel)%nat ->
  lb.heap.down_loop (S fuel) m h i n = lb.heap.down_loop fuel m h i n.
Proof.
  revert h i. induction fuel as [|fuel IH]; intros h i Hi Hf; [lia|].
  change (lb.heap.down_loop (S (S fuel)) m h i n)
    with (let j1 := 2 * i + 1 in
          if (n <=? j1) || (j1 <? 0) then (h, i) else
          let j2 := j1 + 1 in
          let j := if (j2 <? n) && lb.Less m h j2 j1 then j2 else j1 in
          if negb (lb.Less m h j i) then (h, i)
          else lb.heap.down_loop (S fuel) m (lb.Swap h i j) j n).
  change (lb.heap.down_loop (S fuel) m h i n)
    with (let j1 := 2 * i + 1 in
          if (n <=? j1) || (j1 <? 0) then (h, i) else
          let j2 := j1 + 1 in
          let j := if (j2 <? n) && lb.Less m h j2 j1 then j2 else j1 in
          if negb (lb.Less m h j i) then (h, i)
          else lb.heap.down_loop fuel m (lb.Swap h i j) j n).
  cbv zeta.
  destruct ((n <=? 2 * i + 1) || (2 * i + 1 <? 0)) eqn:E; [reflexivity|].
  apply orb_false_iff in E as [E1 E2].
  set (j := if (2 * i + 1 + 1 <? n) && lb.Less m h (2 * i + 1 + 1) (2 * i + 1)
            then 2 * i + 1 + 1 else 2 * i + 1).
  assert (Hj : i < j) by (unfold j; destruct (_ && _); lia).
  destruct (negb (lb.Less m h j i)); [reflexivity|].
  apply IH; lia.
Qed.

(** More turns than [heap.down] allows would change nothing. *)
Lemma down_loop_enough extra m h i :
  0 <= i ->
  lb.heap.down_loop (extra + S (length h)) m h i (lb.Len h)
  = lb.heap.down_loop (S (length h)) m h i (lb.Len h).
Proof.
  intros Hi. induction extra as [|extra IH]; [reflexivity|].
  rewrite <- IH. apply down_loop_stable; [exact Hi|].
  unfold lb.Len, len. lia.
Qed.

Lemma up_loop_stable fuel m h j :
  0 <= j -> (Z.to_nat j < fuel)%nat ->
  lb.heap.up_loop (S fuel) m h j = lb.heap.up_loop fuel m h j.
Proof.
  revert h j. induction fuel as [|fuel IH]; intros h j Hj Hf; [lia|].
  change (lb.heap.up_loop (S (S fuel)) m h j)
    with (let i := Z.quot (j - 1) 2 in
          if (i =? j) || negb (lb.Less m h j i) then h
          else lb.heap.up_loop (S fuel) m (lb.Swap h i j) i).
  change (lb.heap.up_loop (S fuel) m h j)
    with (let i := Z.quot (j - 1) 2 in
          if (i =? j) || negb (lb.Less m h j i) then h
          else lb.heap.up_loop fuel m (lb.Swap h i j) i).
  cbv zeta.
  destruct ((Z.quot (j - 1) 2 =? j) || negb (lb.Less m h j (Z.quot (j - 1) 2))) eqn:E;
    [reflexivity|].
  apply orb_false_iff in E as [E1 _]. apply Z.eqb_neq in E1.
  assert (Hq : 0 <= Z.quot (j - 1) 2 < j).
  { destruct (Z.eq_dec j 0) as [->|Hnz]; [exfalso; apply E1; reflexivity|].
    split.
    - apply Z.quot_pos; lia.
    - apply Z.quot_lt_upper_bound; lia. }
  apply IH; lia.
Qed.

(** More turns than [heap.up] allows would change nothing. *)
Lemma up_loop_enough extra m h j :
  0 <= j < lb.Len h ->
  lb.heap.up_loop (extra + S (length h)) m h j = lb.heap.up_loop (S (length h)) m h j.
Proof.
  intros Hj. induction extra as [|extra IH]; [reflexivity|].
  rewrite <- IH. apply up_loop_stable; [lia|].
  unfold lb.Len, len in Hj. lia.
Qed.

(** *** The choice of a server *)





(** C7, on the code: the three backends answer 200 to the probes of
    start-up and to the probes of the first tick; three requests
    arrive and the one sent to the first backend ends.  The heap then
    holds every server twice, the first backend has no connection and
    the other two have one each; the next request is given to the
    third backend. *)
Theorem busy_server_chosen :
  let '(choices, g) :=
    lb.run (probeAll ++ probeAll ++ [lb.Arrive; lb.Arrive; lb.Arrive; lb.Finish 0])
           lb.init in
  choices = [Some 0; Some 1; Some 2]%nat /\
  lb.onlineServers g = [2; 1; 2; 0; 0; 1]%nat /\
  map lb.connCnt (lb.mem g) = [0; 1; 1] /\
  (lb.handlerBegin g).1 = Some 2%nat.
Proof. vm_compute. repeat split; reflexivity. Qed.

(** *** No server online *)

(** With an empty heap the handler answers 502, calls no backend and
    leaves the state as it was. *)
Lemma handler_empty_heap do m uri g :
  lb.onlineServers g = [] ->
  lb.handler do m uri g = (lb.mkHandled (Some (lb.mkWritten 502 [])) [], g).
Proof.
  intros H. unfold lb.handler, lb.handlerBegin. rewrite H. reflexivity.
Qed.

Lemma offline_addConn d server g :
  offline (lb.mem g) -> offline (lb.mem (lb.addConn d server g)).
Proof.
  unfold offline, lb.addConn. simpl. intros H.
  apply Forall_alter; [exact H|]. intros s _ Hs. exact Hs.
Qed.

Lemma mem_healthCheckUp s b g : lb.mem (lb.healthCheckUp s b g) = lb.mem g.
Proof.
  unfold lb.healthCheckUp.
  repeat match goal with |- context [if ?c then _ else _] => destruct c end;
    reflexivity.
Qed.

(** A probe that fails changes nothing while no cell is marked
    online; no statement of the program marks one. *)
Lemma healthCheckUp_failed s g :
  offline (lb.mem g) -> lb.healthCheckUp s false g = g.
Proof.
  intros H. unfold lb.healthCheckUp. simpl.
  destruct (lb.mem g !! s) as [srv|] eqn:E; [|reflexivity].
  unfold offline in H. rewrite Forall_lookup in H. by rewrite (H _ _ E).
Qed.

(** As long as no probe has succeeded, every request is answered 502,
    whatever the interleaving of probes and requests. *)
Theorem run_no_healthy_probe evs g :
  offline (lb.mem g) -> lb.onlineServers g = [] ->
  (forall s, lb.Probe s true ∉ evs) ->
  Forall (fun c => c = None) (lb.run evs g).1 /\ lb.onlineServers (lb.run evs g).2 = [].
Proof.
  revert g. induction evs as [|[s b| |s] evs IH]; intros g Hoff Hon Hev; simpl.
  - split; [constructor | exact Hon].
  - destruct b.
    + exfalso. apply (Hev s). left.
    + rewrite healthCheckUp_failed by exact Hoff.
      apply IH; auto. intros s' Hin. apply (Hev s'). by right.
  - unfold lb.handlerBegin. rewrite Hon. simpl.
    destruct (IH g Hoff Hon) as [H1 H2].
    { intros s' Hin. apply (Hev s'). by right. }
    destruct (lb.run evs g) as [choices g2]. simpl in *. split; [by constructor | exact H2].
  - apply IH.
    + by apply offline_addConn.
    + exact Hon.
    + intros s' Hin. apply (Hev s'). by right.
Qed.

Lemma run_no_healthy_probe_witness :
  let evs := [lb.Probe 0 false; lb.Probe 1 false; lb.Probe 2 false; lb.Arrive;
              lb.Probe 0 false; lb.Arrive] in
  (offline (lb.mem lb.init)) /\
  (lb.onlineServers lb.init = []) /\
  (forall s, lb.Probe s true ∉ evs) /\
  Forall (fun c => c = None) (lb.run evs lb.init).1 /\
  lb.onlineServers (lb.run evs lb.init).2 = [].
Proof.
  cbv zeta.
  assert (H1 : offline (lb.mem lb.init)) by (repeat constructor).
  assert (H2 : lb.onlineServers lb.init = []) by reflexivity.
  assert (H3 : forall s, lb.Probe s true ∉
                 [lb.Probe 0 false; lb.Probe 1 false; lb.Probe 2 false; lb.Arrive;
                  lb.Probe 0 false; lb.Arrive]).
  { intros s Hin. set_unfold. intuition discriminate. }
  repeat (split; [assumption|]).
  exact (run_no_healthy_probe _ lb.init H1 H2 H3).
Defined.

(** *** The length of the heap *)

Lemma length_Swap h i j : length (lb.Swap h i j) = length h.
Proof.
  unfold lb.Swap.
  etransitivity; [apply length_insert|]. apply length_insert.
Qed.

Lemma length_up_loop fuel m h j : length (lb.heap.up_loop fuel m h j) = length h.
Proof.
  revert h j. induction fuel as [|fuel IH]; intros h j; [reflexivity|].
  cbn [lb.heap.up_loop]. cbv zeta.
  destruct (_ || _); [reflexivity|]. by rewrite IH, length_Swap.
Qed.

Lemma length_down_loop fuel m h i n :
  length (lb.heap.down_loop fuel m h i n).1 = length h.
Proof.
  revert h i. induction fuel as [|fuel IH]; intros h i; [reflexivity|].
  cbn [lb.heap.down_loop]. cbv zeta.
  destruct (_ || _); [reflexivity|].
  destruct (negb _); [reflexivity|]. by rewrite IH, length_Swap.
Qed.

Lemma length_heap_Push m h x : length (lb.heap.Push m h x) = S (length h).
Proof.
  unfold lb.heap.Push, lb.heap.up, lb.Push.
  rewrite length_up_loop, length_app. simpl. lia.
Qed.

Lemma length_heap_Fix m h i : length (lb.heap.Fix m h i) = length h.
Proof.
  unfold lb.heap.Fix, lb.heap.down.
  pose proof (length_down_loop (S (length h)) m h i (lb.Len h)) as Hd.
  destruct (lb.heap.down_loop _ _ _ _ _) as [h' i']. cbn [fst] in Hd.
  destruct (negb _); [|exact Hd].
  unfold lb.heap.up. by rewrite length_up_loop.
Qed.

Lemma offline_handlerBegin g :
  offline (lb.mem g) -> offline (lb.mem (lb.handlerBegin g).2).
Proof.
  intros H. unfold lb.handlerBegin.
  destruct (len (lb.onlineServers g) =? 0); [exact H|].
  cbn [snd]. apply offline_addConn. exact H.
Qed.

Lemma length_handlerBegin g :
  length (lb.onlineServers (lb.handlerBegin g).2) = length (lb.onlineServers g).
Proof.
  unfold lb.handlerBegin.
  destruct (len (lb.onlineServers g) =? 0); [reflexivity|].
  cbn [snd lb.addConn lb.set_mem lb.set_online lb.onlineServers].
  apply length_heap_Fix.
Qed.

Lemma healthCheckUp_healthy s g :
  offline (lb.mem g) ->
  lb.healthCheckUp s true g
  = lb.set_online (lb.heap.Push (lb.mem g) (lb.onlineServers g) s) g.
Proof.
  intros H. unfold lb.healthCheckUp.
  destruct (lb.mem g !! s) as [srv|] eqn:E; [|reflexivity].
  unfold offline in H. rewrite Forall_lookup in H. by rewrite (H _ _ E).
Qed.

(** While no cell is marked online, a healthy probe adds an entry to
    the heap and no step takes one away. *)
Lemma run_offline_length evs g :
  offline (lb.mem g) ->
  offline (lb.mem (lb.run evs g).2) /\
  length (lb.onlineServers (lb.run evs g).2)
  = (length (lb.onlineServers g) + healthyProbes evs)%nat.
Proof.
  revert g. induction evs as [|[s b| |s] evs IH]; intros g Hoff; cbn [lb.run healthyProbes].
  - split; [exact Hoff | cbn [snd]; lia].
  - destruct b.
    + rewrite healthCheckUp_healthy by exact Hoff.
      destruct (IH (lb.set_online (lb.heap.Push (lb.mem g) (lb.onlineServers g) s) g))
        as [H1 H2]; [exact Hoff|].
      split; [exact H1|]. rewrite H2. cbn [lb.onlineServers lb.set_online].
      rewrite length_heap_Push. lia.
    + rewrite healthCheckUp_failed by exact Hoff. destruct (IH g Hoff) as [H1 H2].
      split; [exact H1 | exact H2].
  - pose proof (offline_handlerBegin g Hoff) as Hoff'.
    pose proof (length_handlerBegin g) as Hlen.
    destruct (lb.handlerBegin g) as [choice g1]. cbn [snd] in *.
    destruct (IH g1 Hoff') as [H1 H2].
    destruct (lb.run evs g1) as [choices g2]. cbn [snd] in *.
    split; [exact H1 | rewrite H2, Hlen; reflexivity].
  - destruct (IH (lb.handlerEnd s g)) as [H1 H2].
    { unfold lb.handlerEnd. by apply offline_addConn. }
    split; [exact H1 | exact H2].
Qed.

(** *** A backend that has failed stays in the heap *)

(** C8, on the code: [healthCheckUp] never assigns
    [server.isServerOnline], so its branch that removes a server from
    the heap is never taken.  Once a probe has found a backend
    healthy the heap is never empty again.  A request that arrives
    when every backend has failed its latest probe, so that no
    backend is live, is not answered 502: the handler takes a server
    from the heap, counts the connection and forwards the request to
    it. *)
Theorem dead_backend_is_chosen evs g :
  offline (lb.mem g) ->
  (0 < healthyProbes evs)%nat ->
  (forall server, live evs server = false) ->
  exists server,
    (lb.handlerBegin (lb.run evs g).2).1 = Some server /\
    live evs server = false /\
    lb.onlineServers (lb.run evs g).2 <> [].
Proof.
  intros Hoff Hpos Hdead.
  destruct (run_offline_length evs g Hoff) as [_ Hlen].
  unfold lb.handlerBegin.
  destruct (lb.onlineServers (lb.run evs g).2) as [|s h] eqn:Eh.
  { cbn [length] in Hlen. lia. }
  change (len (s :: h) =? 0) with (Z.of_nat (S (length h)) =? 0).
  destruct (Z.eqb_spec (Z.of_nat (S (length h))) 0) as [E|_]; [lia|].
  eexists. split; [reflexivity|]. split; [apply Hdead | discriminate].
Qed.

Lemma dead_backend_is_chosen_witness :
  let evs := [lb.Probe 0 true; lb.Probe 1 false; lb.Probe 2 false; lb.Probe 0 false] in
  (offline (lb.mem lb.init)) /\
  ((0 < healthyProbes evs)%nat) /\
  (forall server, live evs server = false) /\
  exists server,
    (lb.handlerBegin (lb.run evs lb.init).2).1 = Some server /\
    live evs server = false /\
    lb.onlineServers (lb.run evs lb.init).2 <> [].
Proof.
  cbv zeta.
  assert (H1 : offline (lb.mem lb.init)) by (repeat constructor).
  assert (H2 : (0 < healthyProbes [lb.Probe 0 true; lb.Probe 1 false; lb.Probe 2 false;
                                   lb.Probe 0 false])%nat) by (simpl; lia).
  assert (H3 : forall server,
             live [lb.Probe 0 true; lb.Probe 1 false; lb.Probe 2 false; lb.Probe 0 false]
                  server = false).
  { intros server. unfold live. cbn [lastProbe].
    repeat (case_bool_decide; try reflexivity). }
  repeat (split; [assumption|]).
  exact (dead_backend_is_chosen _ lb.init H1 H2 H3).
Defined.

(** The first backend answers 200 to the probe of start-up, the other
    two do not; ten seconds later the first backend has gone too.
    No backend is live, the heap still holds the first server, and a
    request is forwarded to [server1:8080]; as the backend does not
    answer, the client receives 503. *)
Example dead_backend_gets_the_request :
  let evs := [lb.Probe 0 true; lb.Probe 1 false; lb.Probe 2 false; lb.Probe 0 false] in
  let g := (lb.run evs lb.init).2 in
  map (live evs) (lb.serversPool g) = [false; false; false] /\
  lb.onlineServers g = [0%nat] /\
  map lb.isServerOnline (lb.mem g) = [false; false; false] /\
  (lb.handler (fun _ => None) "GET" "/api/v1/some-data" g).1
  = lb.mkHandled (Some (lb.mkWritten 503 []))
      [lb.mkOutbound "GET" "http://server1:8080/api/v1/some-data" (3 * lb.Second)].
Proof. vm_compute. repeat split; reflexivity. Qed.

(** *** The counters *)

Lemma addConn_undo_mem server g :
  lb.mem (lb.handlerEnd server (lb.addConn 1 server g)) = lb.mem g.
Proof.
  unfold lb.handlerEnd, lb.addConn. cbn [lb.mem lb.set_mem].
  rewrite list_alter_alter_eq.
  apply list_alter_id. intros [a c o]. simpl. f_equal. lia.
Qed.

(** A request whose handler returns leaves every counter as it found
    it.  The handler has no [defer]: when the backend answers with a
    status below 100 or above 999, [rw.WriteHeader] panics in
    [forward], the statement [server.connCnt--] is not reached and
    the counter of the chosen server stays one higher. *)
Theorem handler_counts do m uri g :
  match lb.written (lb.handler do m uri g).1 with
  | Some _ => lb.mem (lb.handler do m uri g).2 = lb.mem g
  | None =>
      exists server req resp,
        (lb.handlerBegin g).1 = Some server /\
        lb.calls (lb.handler do m uri g).1 = [req] /\
        do req = Some resp /\
        (lb.StatusCode resp < 100 \/ 999 < lb.StatusCode resp) /\
        lb.mem (lb.handler do m uri g).2 = lb.mem (lb.addConn 1 server g)
  end.
Proof.
  unfold lb.handler, lb.handlerBegin.
  destruct (len (lb.onlineServers g) =? 0); [reflexivity|].
  cbv zeta.
  set (g1 := lb.set_online (lb.heap.Fix (lb.mem g) (lb.onlineServers g) 0) g).
  set (server := lb.at_ (lb.onlineServers g1) 0).
  set (req := lb.forwardRequest _ _ m uri).
  unfold lb.forward.
  destruct (do req) as [resp|] eqn:Edo.
  - unfold lb.WriteHeader.
    destruct ((lb.StatusCode resp <? 100) || (999 <? lb.StatusCode resp)) eqn:Ec;
      cbn [mbind option_bind fst snd lb.written lb.calls].
    + exists server, req, resp. repeat split; try assumption.
      apply orb_true_iff in Ec as [Ec|Ec]; [left|right]; lia.
    + apply (addConn_undo_mem server g1).
  - cbn [mbind option_bind lb.WriteHeader fst snd lb.written].
    apply (addConn_undo_mem server g1).
Qed.

(** After one pass of healthy probes, a backend that answers with the
    status 99 leaves the counter of the first server at one, though
    the request has ended. *)
Example handler_panic_leaks_count :
  let g := (lb.run probeAll lb.init).2 in
  let h := lb.handler (fun _ => Some (lb.mkResponse 99 [])) "GET" "/api/v1/some-data" g in
  lb.written h.1 = None /\
  map lb.connCnt (lb.mem g) = [0; 0; 0] /\
  map lb.connCnt (lb.mem h.2) = [1; 0; 0].
Proof. vm_compute. repeat split; reflexivity. Qed.

(** *** The deadline *)

Lemma timeout_healthCheckUp s b g :
  lb.timeout (lb.healthCheckUp s b g) = lb.timeout g.
Proof.
  unfold lb.healthCheckUp.
  repeat match goal with |- context [if ?c then _ else _] => destruct c end;
    reflexivity.
Qed.

Lemma timeout_handlerBegin g : lb.timeout (lb.handlerBegin g).2 = lb.timeout g.
Proof.
  unfold lb.handlerBegin. destruct (len (lb.onlineServers g) =? 0); reflexivity.
Qed.

(** No step of the balancer assigns [timeout]. *)
Lemma timeout_run evs g : lb.timeout (lb.run evs g).2 = lb.timeout g.
Proof.
  revert g. induction evs as [|[s b| |s] evs IH]; intros g; simpl.
  - reflexivity.
  - rewrite IH. apply timeout_healthCheckUp.
  - pose proof (timeout_handlerBegin g) as Hb.
    destruct (lb.handlerBegin g) as [choice g1]. specialize (IH g1).
    destruct (lb.run evs g1) as [choices g2]. simpl in *. congruence.
  - rewrite IH. reflexivity.
Qed.

(** C9, on the code: [timeout] is computed when the package is
    initialised, before [flag.Parse] runs.  Whatever the command line
    sets, and after any run of the balancer, the probes and the
    forwarded requests carry a deadline of three seconds, while the
    flag variable holds the configured value. *)
Theorem deadline_ignores_flag cl evs dst m uri :
  let g := (lb.run evs (lb.flagParse cl lb.init)).2 in
  lb.timeoutSec (lb.flags (lb.flagParse cl lb.init)) = default 3 (lb.cl_timeoutSec cl) /\
  lb.ob_deadline (lb.healthRequest g dst) = 3 * lb.Second /\
  lb.ob_deadline (lb.forwardRequest g dst m uri) = 3 * lb.Second.
Proof.
  simpl. rewrite timeout_run. repeat split; reflexivity.
Qed.

(** Started with [-timeout-sec=10], the balancer probes with a
    deadline of three seconds. *)
Example deadline_with_timeout_sec_10 :
  let g := lb.flagParse (lb.mkCommandLine None (Some 10) None None) lb.init in
  lb.timeoutSec (lb.flags g) = 10 /\
  lb.ob_deadline (lb.healthRequest g "server1:8080") = 3 * lb.Second.
Proof. split; reflexivity. Qed.

(** * More of the code

    What the functions do besides what the statements above settle:
    the layouts that the readers expect, the edges of the store's
    interface, the files of a merge and the balancer under load. *)

(** ** The layouts that Decode and readValue read *)

Lemma string_of_bytes_of_string s : string_of_bytes (bytes_of_string s) = s.
Proof. apply string_of_list_byte_of_string. Qed.



Lemma copy_make_exact n l : n = len l -> copy_make n l = l.
Proof.
  intros ->. unfold copy_make, len. rewrite Nat2Z.id, firstn_all, Nat.sub_diag.
  apply app_nil_r.
Qed.

Lemma copy_make_take n l : 0 <= n <= len l -> copy_make n l = take (Z.to_nat n) l.
Proof.
  intros H. unfold copy_make, len in *.
  replace (Z.to_nat n - length l)%nat with 0%nat by lia. apply app_nil_r.
Qed.

(** [s[lo:hi]] of a slice whose array is [A ++ B ++ C], where [B]
    starts at [lo] and ends at [hi]. *)
Lemma slice_range_split (A B C : list byte) n lo hi :
  lo = len A -> hi = lo + len B ->
  exists r, slice_range (mkSlice (A ++ B ++ C) n) lo hi = Ok r /\ elems r = B.
Proof.
  intros -> ->. unfold slice_range, cap. cbn [sl_arr].
  pose proof (len_nonneg A). pose proof (len_nonneg B). pose proof (len_nonneg C).
  replace ((0 <=? len A) && (len A <=? len A + len B)
           && (len A + len B <=? len (A ++ B ++ C))) with true
    by (symmetry; rewrite !len_app, !andb_true_iff; lia).
  eexists. split; [reflexivity|].
  unfold elems. cbn [sl_arr sl_len]. rewrite (drop_len_app A) by reflexivity.
  replace (len A + len B - len A) with (len B) by lia.
  unfold len. rewrite Nat2Z.id. by rewrite take_app_length.
Qed.

Lemma le32_range b0 b1 b2 b3 : 0 <= LittleEndian.le32 b0 b1 b2 b3 < 2 ^ 32.
Proof.
  unfold LittleEndian.le32, Z_of_byte.
  pose proof (Byte.to_N_bounded b0). pose proof (Byte.to_N_bounded b1).
  pose proof (Byte.to_N_bounded b2). pose proof (Byte.to_N_bounded b3).
  change (2 ^ 32) with 4294967296. lia.
Qed.

Lemma Uint32_Ok s v :
  LittleEndian.Uint32 s = Ok v -> 4 <= sl_len s /\ 0 <= v < 2 ^ 32.
Proof.
  unfold LittleEndian.Uint32. destruct (Z.leb_spec 4 (sl_len s)); [|discriminate].
  destruct (sl_arr s) as [|b0 [|b1 [|b2 [|b3 ?]]]]; try discriminate.
  intros [= <-]. split; [lia | apply le32_range].
Qed.

Lemma Uint32_not_Err s e : LittleEndian.Uint32 s <> Err e.
Proof.
  unfold LittleEndian.Uint32. destruct (4 <=? sl_len s); [|discriminate].
  destruct (sl_arr s) as [|b0 [|b1 [|b2 [|b3 ?]]]]; discriminate.
Qed.

Lemma slice_from_Ok s lo r :
  slice_from s lo = Ok r -> 0 <= lo <= sl_len s /\ sl_len r = sl_len s - lo.
Proof.
  unfold slice_from. destruct ((0 <=? lo) && (lo <=? sl_len s)) eqn:E; [|discriminate].
  intros [= <-]. apply andb_true_iff in E. cbn. lia.
Qed.

Lemma slice_range_Ok s lo hi r :
  slice_range s lo hi = Ok r -> 0 <= lo <= hi.
Proof.
  unfold slice_range. destruct ((0 <=? lo) && (lo <=? hi) && (hi <=? cap s)) eqn:E;
    [|discriminate].
  intros _. rewrite !andb_true_iff in E. lia.
Qed.

(** The layout that [Decode] reads has a third field: when the frame
    of [Encode] is followed by the length of a data type and the data
    type, [Decode] returns the key, the value and the data type. *)
Theorem Decode_typed_frame (k v d : string) :
  slen k + slen v + slen d + 16 < 2 ^ 32 ->
  Decode (slice_of (Encode (mkEntry k v "")
                    ++ LittleEndian.PutUint32 (slen d) ++ bytes_of_string d))
  = Ok (mkEntry k v d).
Proof.
  intros Hsz.
  assert (Hk : 0 <= slen k) by (unfold slen; lia).
  assert (Hv : 0 <= slen v) by (unfold slen; lia).
  assert (Hd : 0 <= slen d) by (unfold slen; lia).
  unfold Encode. cbn [key value dataType].
  rewrite copy_nil, app_nil_r, !u32_small by lia.
  set (K := bytes_of_string k). set (V := bytes_of_string v). set (D := bytes_of_string d).
  assert (HK : len K = slen k) by apply len_bytes_of_string.
  assert (HV : len V = slen v) by apply len_bytes_of_string.
  assert (HD : len D = slen d) by apply len_bytes_of_string.
  set (P1 := LittleEndian.PutUint32 (slen k + slen v + 12)).
  set (P2 := LittleEndian.PutUint32 (slen k)).
  set (P3 := LittleEndian.PutUint32 (slen v)).
  set (P4 := LittleEndian.PutUint32 (slen d)).
  rewrite <- !app_assoc.
  unfold slice_of.
  remember (len (P1 ++ P2 ++ K ++ P3 ++ V ++ P4 ++ D)) as n eqn:Hn.
  assert (Hn' : n = slen k + slen v + slen d + 16).
  { rewrite Hn, !len_app, HK, HV, HD. unfold P1, P2, P3, P4.
    rewrite !len_PutUint32. lia. }
  clear Hn.
  set (input := mkSlice (P1 ++ P2 ++ K ++ P3 ++ V ++ P4 ++ D) n).
  unfold Decode.
  assert (E1 : slice_from input 4 = Ok (mkSlice (P2 ++ K ++ P3 ++ V ++ P4 ++ D) (n - 4)))
    by (apply slice_from_split; [reflexivity | lia]).
  rewrite E1. go.
  unfold P2 at 1. rewrite Uint32_PutUint32 by lia. go.
  rewrite (u32_small (slen k + 8)) by lia.
  destruct (slice_range_split (P1 ++ P2) K (P3 ++ V ++ P4 ++ D) n 8 (slen k + 8))
    as (ks & Eks & Hks); [reflexivity | lia |].
  rewrite <- !app_assoc in Eks. fold input in Eks. rewrite Eks. go. rewrite Hks.
  assert (E2 : slice_from input (slen k + 8)
               = Ok (mkSlice (P3 ++ V ++ P4 ++ D) (n - (slen k + 8)))).
  { unfold input.
    replace (P1 ++ P2 ++ K ++ P3 ++ V ++ P4 ++ D)
      with ((P1 ++ P2 ++ K) ++ P3 ++ V ++ P4 ++ D) by (by rewrite <- !app_assoc).
    apply slice_from_split; [|lia].
    rewrite !len_app, HK. unfold P1, P2. rewrite !len_PutUint32. lia. }
  rewrite E2. go.
  unfold P3 at 1. rewrite Uint32_PutUint32 by lia. go.
  rewrite (u32_small (slen k + 12)), (u32_small (slen k + 12 + slen v)) by lia.
  destruct (slice_range_split (P1 ++ P2 ++ K ++ P3) V (P4 ++ D) n
              (slen k + 12) (slen k + 12 + slen v)) as (vs & Evs & Hvs).
  { rewrite !len_app, HK. unfold P1, P2, P3. rewrite !len_PutUint32. lia. }
  { lia. }
  rewrite <- !app_assoc in Evs. fold input in Evs. rewrite Evs. go. rewrite Hvs.
  assert (E3 : slice_from input (slen k + 12 + slen v)
               = Ok (mkSlice (P4 ++ D) (n - (slen k + 12 + slen v)))).
  { unfold input.
    replace (P1 ++ P2 ++ K ++ P3 ++ V ++ P4 ++ D)
      with ((P1 ++ P2 ++ K ++ P3 ++ V) ++ P4 ++ D) by (by rewrite <- !app_assoc).
    apply slice_from_split; [|lia].
    rewrite !len_app, HK, HV. unfold P1, P2, P3. rewrite !len_PutUint32. lia. }
  rewrite E3. go.
  unfold P4 at 1. rewrite Uint32_PutUint32 by lia. go.
  rewrite (u32_small (slen k + 12 + slen v + 4)),
          (u32_small (slen k + 12 + slen v + 4 + slen d)) by lia.
  destruct (slice_range_split (P1 ++ P2 ++ K ++ P3 ++ V ++ P4) D [] n
              (slen k + 12 + slen v + 4) (slen k + 12 + slen v + 4 + slen d))
    as (ds & Eds & Hds).
  { rewrite !len_app, HK, HV. unfold P1, P2, P3, P4. rewrite !len_PutUint32. lia. }
  { lia. }
  rewrite app_nil_r, <- !app_assoc in Eds. fold input in Eds. rewrite Eds. go. rewrite Hds.
  rewrite !copy_make_exact by (symmetry; assumption).
  unfold K, V, D. by rewrite !string_of_bytes_of_string.
Qed.

Lemma Decode_typed_frame_witness :
  (slen "1" + slen "as" + slen "i" + 16 < 2 ^ 32) /\
  Decode (slice_of (Encode (mkEntry "1" "as" "")
                    ++ LittleEndian.PutUint32 (slen "i") ++ bytes_of_string "i"))
  = Ok (mkEntry "1" "as" "i").
Proof.
  assert (H : slen "1" + slen "as" + slen "i" + 16 < 2 ^ 32) by reflexivity.
  split; [exact H | exact (Decode_typed_frame "1" "as" "i" H)].
Defined.

(** [Decode] needs the three length fields: on an input shorter than
    sixteen bytes it does not return. *)
Theorem Decode_panics_below_16 (input : slice) :
  sl_len input < 16 -> exists p, Decode input = Panic p.
Proof.
  intros Hlen. unfold Decode.
  destruct (slice_from input 4) as [h1| |p] eqn:E1; go; eauto;
    [|unfold slice_from in E1; destruct (_ && _); discriminate].
  apply slice_from_Ok in E1 as [_ El1].
  destruct (LittleEndian.Uint32 h1) as [kl| |p] eqn:U1; go; eauto;
    [|exfalso; by eapply Uint32_not_Err].
  apply Uint32_Ok in U1 as [Hh1 Hkl].
  destruct (slice_range input 8 (u32 (kl + 8))) as [ks| |p] eqn:R1; go; eauto;
    [|unfold slice_range in R1; destruct (_ && _); discriminate].
  apply slice_range_Ok in R1.
  destruct (slice_from input (u32 (kl + 8))) as [h2| |p] eqn:E2; go; eauto;
    [|unfold slice_from in E2; destruct (_ && _); discriminate].
  apply slice_from_Ok in E2 as [Hb2 El2].
  destruct (LittleEndian.Uint32 h2) as [vl| |p] eqn:U2; go; eauto;
    [|exfalso; by eapply Uint32_not_Err].
  apply Uint32_Ok in U2 as [Hh2 Hvl].
  (* the key length is small, so nothing wraps up to here *)
  assert (Hkl8 : u32 (kl + 8) = kl + 8).
  { unfold u32 in *. destruct (Z.lt_ge_cases (kl + 8) (2 ^ 32)) as [Hlt|Hge].
    - apply Z.mod_small. lia.
    - exfalso. replace ((kl + 8) mod 2 ^ 32) with (kl + 8 - 2 ^ 32) in R1; [lia|].
      apply Z.mod_unique with (q := 1); lia. }
  rewrite Hkl8 in *.
  assert (Hkl12 : u32 (kl + 12) = kl + 12) by (apply u32_small; lia).
  rewrite Hkl12.
  destruct (slice_range input (kl + 12) (u32 (kl + 12 + vl))) as [vs| |p] eqn:R2;
    go; eauto; [|unfold slice_range in R2; destruct (_ && _); discriminate].
  apply slice_range_Ok in R2.
  destruct (slice_from input (u32 (kl + 12 + vl))) as [h3| |p] eqn:E3; go; eauto;
    [|unfold slice_from in E3; destruct (_ && _); discriminate].
  apply slice_from_Ok in E3 as [Hb3 El3].
  destruct (LittleEndian.Uint32 h3) as [dl| |p] eqn:U3; go; eauto;
    [|exfalso; by eapply Uint32_not_Err].
  apply Uint32_Ok in U3 as [Hh3 _]. lia.
Qed.

Lemma Decode_panics_below_16_witness :
  (sl_len (slice_of (Encode (mkEntry "1" "as" ""))) < 16) /\
  exists p, Decode (slice_of (Encode (mkEntry "1" "as" ""))) = Panic p.
Proof.
  assert (H : sl_len (slice_of (Encode (mkEntry "1" "as" ""))) < 16) by reflexivity.
  split; [exact H | exact (Decode_panics_below_16 _ H)].
Defined.

(** A [Read] of no byte from a reader that holds the rest of the
    file. *)
Lemma Read_drained_zero B :
  bufio.Read 0 (drained B) = (([], None), drained B).
Proof.
  unfold bufio.Read, bufio.Buffered, bufio.readErr, drained.
  cbn [bufio.rd_buf bufio.rd_err bufio.rd_size bufio.rd_src].
  change (0 =? 0) with true. cbv iota.
  destruct (0 <? len B); reflexivity.
Qed.

(** The first [Peek] on a file shorter than what is asked for meets
    the end of the file. *)
Lemma Peek_fresh_short F n :
  len F < n -> n <= bufio.defaultBufSize ->
  (bufio.Peek n (bufio.NewReader F)).1 = (F, Some EOF).
Proof.
  intros Hn HF.
  pose proof (len_nonneg F) as Hnn.
  assert (Hd : bufio.defaultBufSize = 4096) by reflexivity.
  destruct (Z.eq_dec (len F) 0) as [Hz|Hnz].
  - assert (F = []) as -> by (destruct F; [reflexivity | unfold len in Hz; simpl in Hz; lia]).
    change (bufio.NewReader []) with (drained []).
    by apply Peek_drained_short.
  - unfold bufio.Peek. destruct (Z.ltb_spec n 0); [lia|].
    assert (Hl : bufio.peek_loop (S (S (length (bufio.rd_src (bufio.NewReader F))))) n
                   (bufio.NewReader F)
                 = bufio.mkReader bufio.defaultBufSize F [] (Some EOF)).
    { rewrite peek_loop_S.
      assert (Hg : peek_guard n (bufio.NewReader F) = true).
      { unfold peek_guard.
        change (bufio.Buffered (bufio.NewReader F)) with 0.
        change (bufio.rd_size (bufio.NewReader F)) with 4096.
        destruct (Z.ltb_spec 0 n); [|lia]. reflexivity. }
      rewrite Hg, fill_fresh by lia.
      change (bufio.rd_src (bufio.NewReader F)) with F.
      destruct F as [|x F]; [done|]. simpl length.
      rewrite peek_loop_S.
      assert (Hg2 : peek_guard n (drained (x :: F)) = true).
      { unfold peek_guard, bufio.Buffered, drained.
        cbn [bufio.rd_buf bufio.rd_size bufio.rd_err isNil].
        destruct (Z.ltb_spec (len (x :: F)) n); [|lia].
        destruct (Z.ltb_spec (len (x :: F)) bufio.defaultBufSize); [|lia]. reflexivity. }
      rewrite Hg2.
      assert (Hf : bufio.fill (drained (x :: F))
                   = bufio.mkReader bufio.defaultBufSize (x :: F) [] (Some EOF)).
      { unfold bufio.fill, bufio.file_read, drained.
        cbn [bufio.rd_src bufio.rd_size bufio.rd_buf bufio.rd_err].
        by rewrite app_nil_r. }
      rewrite Hf, peek_loop_S. unfold peek_guard. cbn [bufio.rd_err isNil].
      by rewrite andb_false_r. }
    rewrite Hl. cbn [bufio.rd_size bufio.rd_buf]. unfold bufio.Buffered, bufio.readErr.
    cbn [bufio.rd_size bufio.rd_buf bufio.rd_err bufio.rd_src].
    destruct (Z.ltb_spec bufio.defaultBufSize n); [lia|].
    destruct (Z.ltb_spec (len F) n); [|lia].
    reflexivity.
Qed.

(** A stream that ends before the eight bytes of the two leading
    length fields, the empty stream among them: [io.EOF]. *)
Theorem readValue_short_stream (F : list byte) :
  len F < 8 -> readValue (bufio.NewReader F) = Err EOF.
Proof.
  intros H. unfold readValue.
  destruct (bufio.Peek 8 (bufio.NewReader F)) as [res in1] eqn:E.
  pose proof (Peek_fresh_short F 8 H ltac:(unfold bufio.defaultBufSize; lia)) as Hp.
  rewrite E in Hp. cbn [fst] in Hp. subst res. reflexivity.
Qed.

Lemma readValue_short_stream_witness :
  (len (@nil byte) < 8) /\ readValue (bufio.NewReader []) = Err EOF.
Proof.
  assert (H : len (@nil byte) < 8) by reflexivity.
  split; [exact H | exact (readValue_short_stream [] H)].
Defined.

(** [readValue] up to the data type: it skips the header, the key and
    four more bytes, and goes on with what follows. *)
Lemma readValue_head (H K T tl : list byte) :
  len H = 4 -> len T = 4 ->
  len (H ++ LittleEndian.PutUint32 (len K) ++ K ++ T ++ tl) <= 4096 ->
  readValue (bufio.NewReader (H ++ LittleEndian.PutUint32 (len K) ++ K ++ T ++ tl))
  = readValueTail (drained tl).
Proof.
  intros HH HT Hsz.
  assert (Hk : 0 <= len K) by apply len_nonneg.
  assert (Hr : 0 <= len tl) by apply len_nonneg.
  assert (Hd : bufio.defaultBufSize = 4096) by reflexivity.
  set (P2 := LittleEndian.PutUint32 (len K)) in *.
  remember (H ++ P2 ++ K ++ T ++ tl) as F eqn:HF.
  assert (HL : len F = len K + len tl + 12).
  { rewrite HF, !len_app, HH, HT. unfold P2. rewrite !len_PutUint32. lia. }
  unfold readValue.
  rewrite Peek_fresh by lia. rewrite try_ok. go.
  assert (Hh : take (Z.to_nat 8) F = H ++ P2).
  { rewrite HF. rewrite (app_assoc H P2). rewrite take_app_length'; [reflexivity|].
    rewrite length_app. unfold len in HH. unfold P2. simpl length. lia. }
  rewrite Hh.
  assert (H8 : len (H ++ P2) = 8) by (rewrite len_app, HH; reflexivity).
  change (slice_of (H ++ P2)) with (mkSlice (H ++ P2) (len (H ++ P2))). rewrite H8.
  rewrite (slice_from_split H P2) by (first [symmetry; assumption | lia]).
  go.
  assert (Hkl : LittleEndian.Uint32 (mkSlice P2 (8 - 4)) = Ok (len K)).
  { unfold P2. rewrite <- (app_nil_r (LittleEndian.PutUint32 (len K))).
    apply Uint32_PutUint32; lia. }
  rewrite Hkl. go.
  rewrite Discard_drained by lia. rewrite try_ok. go.
  assert (Hd1 : drop (Z.to_nat (len K + 8)) F = T ++ tl).
  { rewrite HF.
    replace (H ++ P2 ++ K ++ T ++ tl) with ((H ++ P2 ++ K) ++ T ++ tl)
      by (by rewrite <- !app_assoc).
    apply drop_len_app. rewrite !len_app, HH. unfold P2. rewrite len_PutUint32. lia. }
  rewrite Hd1.
  assert (HTl : len (T ++ tl) = len tl + 4) by (rewrite len_app, HT; lia).
  rewrite Read_drained by lia. rewrite try_ok. go.
  rewrite String.eqb_refl. cbn [negb].
  assert (Hd2 : drop (Z.to_nat 4) (T ++ tl) = tl)
    by (apply drop_len_app; symmetry; assumption).
  rewrite Hd2. reflexivity.
Qed.


(** The rest of [readValue] on a length followed by that many bytes. *)
Lemma readValueTail_prefixed (p : string) (rest : list byte) :
  slen p + len rest + 4 <= 4096 ->
  readValueTail (drained (LittleEndian.PutUint32 (slen p) ++ bytes_of_string p ++ rest))
  = Ok p.
Proof.
  intros Hsz.
  assert (Hv : 0 <= slen p) by (unfold slen; lia).
  assert (Hr : 0 <= len rest) by apply len_nonneg.
  assert (Hd : bufio.defaultBufSize = 4096) by reflexivity.
  set (V := bytes_of_string p) in *.
  assert (HV : len V = slen p) by apply len_bytes_of_string.
  set (P3 := LittleEndian.PutUint32 (slen p)) in *.
  assert (HPl : len (P3 ++ V ++ rest) = slen p + len rest + 4).
  { rewrite !len_app, HV. unfold P3. rewrite len_PutUint32. lia. }
  unfold readValueTail.
  rewrite Peek_drained by lia. rewrite try_ok. go.
  assert (Hh4 : take (Z.to_nat 4) (P3 ++ V ++ rest) = P3)
    by (by rewrite take_app_length').
  rewrite Hh4.
  assert (Hvl : LittleEndian.Uint32 (slice_of P3) = Ok (slen p)).
  { unfold slice_of, P3. rewrite <- (app_nil_r (LittleEndian.PutUint32 (slen p))) at 1.
    apply Uint32_PutUint32; [lia | reflexivity]. }
  rewrite Hvl. go.
  rewrite Discard_drained by lia. rewrite try_ok. go.
  assert (Hd3 : drop (Z.to_nat 4) (P3 ++ V ++ rest) = V ++ rest)
    by (by apply drop_len_app).
  rewrite Hd3.
  destruct (Z.eq_dec (slen p) 0) as [Hz|Hnz].
  - rewrite Hz, Read_drained_zero. rewrite try_ok. go.
    change (len (@nil byte) =? 0) with true. cbn [negb].
    assert (p = "") as -> by (destruct p; [reflexivity | unfold slen in Hz; simpl in Hz; lia]).
    reflexivity.
  - rewrite Read_drained by (rewrite ?len_app; lia). rewrite try_ok. go.
    assert (Hgot : take (Z.to_nat (slen p)) (V ++ rest) = V).
    { rewrite take_app_length'; [reflexivity|]. unfold len in HV. lia. }
    rewrite Hgot, HV, Z.eqb_refl. cbn [negb].
    rewrite copy_make_exact by (symmetry; assumption).
    unfold V. by rewrite string_of_bytes_of_string.
Qed.






(** *** Get after Put, case by case *)






(** The layout that [readValue] reads: after the key come four bytes
    that it takes for a data type, then the length of the value and
    the value.  On such a stream it returns the value. *)
Theorem readValue_typed_frame (H K T rest : list byte) (v : string) :
  len H = 4 -> len T = 4 ->
  len K + slen v + len rest + 16 <= 4096 ->
  readValue (bufio.NewReader
               (H ++ LittleEndian.PutUint32 (len K) ++ K ++ T
                ++ LittleEndian.PutUint32 (slen v) ++ bytes_of_string v ++ rest))
  = Ok v.
Proof.
  intros HH HT Hsz.
  pose proof (len_nonneg K). pose proof (len_nonneg rest).
  rewrite readValue_head; [apply readValueTail_prefixed; lia | assumption | assumption |].
  rewrite !len_app, HH, HT, !len_PutUint32, len_bytes_of_string. lia.
Qed.

Lemma readValue_typed_frame_witness :
  let H := LittleEndian.PutUint32 19 in
  let K := bytes_of_string "1" in
  let T := bytes_of_string "text" in
  (len H = 4) /\ (len T = 4) /\
  (len K + slen "as" + len (@nil byte) + 16 <= 4096) /\
  readValue (bufio.NewReader
               (H ++ LittleEndian.PutUint32 (len K) ++ K ++ T
                ++ LittleEndian.PutUint32 (slen "as") ++ bytes_of_string "as" ++ []))
  = Ok "as".
Proof.
  cbv zeta.
  assert (H1 : len (LittleEndian.PutUint32 19) = 4) by reflexivity.
  assert (H2 : len (bytes_of_string "text") = 4) by reflexivity.
  assert (H3 : len (bytes_of_string "1") + slen "as" + len (@nil byte) + 16 <= 4096)
    by (vm_compute; discriminate).
  repeat (split; [assumption|]).
  exact (readValue_typed_frame _ _ _ [] "as" H1 H2 H3).
Defined.








(** *** The int64 interface *)







(** ** Rotation, opening and closing *)







(** *** Paths *)

Lemma elements_inhabited path : elements path <> [].
Proof.
  destruct path as [|c rest]; cbn [elements]; [discriminate|].
  destruct (Ascii.eqb c "/"); [discriminate|].
  destruct (elements rest); discriminate.
Qed.

Lemma elements_join a b :
  elements (a +:+ "/" +:+ b) = elements a ++ elements b.
Proof.
  induction a as [|c a IH]; [reflexivity|].
  change (String c a +:+ "/" +:+ b) with (String c (a +:+ "/" +:+ b)).
  cbn [elements]. rewrite IH.
  destruct (Ascii.eqb c "/"); [reflexivity|].
  pose proof (elements_inhabited a) as Ha.
  destruct (elements a) as [|e es]; [done | reflexivity].
Qed.

Lemma concat_elements path : String.concat "/" (elements path) = path.
Proof.
  induction path as [|c rest IH]; [reflexivity|].
  cbn [elements].
  pose proof (elements_inhabited rest) as Hr.
  destruct (Ascii.eqb_spec c "/") as [->|_].
  - destruct (elements rest) as [|e es]; [done|].
    rewrite <- IH. reflexivity.
  - destruct (elements rest) as [|e es]; [done|].
    rewrite <- IH. destruct es; reflexivity.
Qed.

Lemma cleanElements_plain rooted out es :
  forallb plain es = true ->
  filepath.cleanElements rooted out es = reverse out ++ es.
Proof.
  revert out. induction es as [|e es IH]; intros out H.
  - cbn [filepath.cleanElements]. by rewrite app_nil_r.
  - cbn [forallb] in H. apply andb_true_iff in H as [He Hes].
    unfold plain in He.
    apply andb_true_iff in He as [He H3]. apply andb_true_iff in He as [H1 H2].
    apply negb_true_iff in H1, H2, H3.
    cbn [filepath.cleanElements]. rewrite H1, H2, H3. cbn [orb].
    rewrite IH by exact Hes. rewrite reverse_cons, <- app_assoc. reflexivity.
Qed.

(** On a clean directory path [filepath.Join] is the concatenation
    that [generateNewFileName] stands for. *)
Lemma Join_cleanDir dir name :
  cleanDir dir = true ->
  elements name = [name] -> plain name = true ->
  filepath.Join dir name = dir +:+ "/" +:+ name.
Proof.
  intros Hc Hn Hp. unfold cleanDir in Hc.
  pose proof (concat_elements (dir +:+ "/" +:+ name)) as Hcat.
  rewrite elements_join, Hn in Hcat.
  unfold filepath.Join.
  destruct dir as [|c dir'].
  { cbn in Hc. discriminate. }
  cbn [String.eqb negb].
  change (String c dir' +:+ "/" +:+ name) with (String c (dir' +:+ "/" +:+ name)) in *.
  unfold filepath.Clean.
  change (String c (dir' +:+ "/" +:+ name)) with (String c dir' +:+ "/" +:+ name) in *.
  rewrite elements_join, Hn.
  destruct (elements (String c dir')) as [|first rest] eqn:Ee; [discriminate|].
  assert (Hfirst : String.eqb first EmptyString = Ascii.eqb c "/").
  { cbn [elements] in Ee. destruct (Ascii.eqb c "/").
    - injection Ee as <- _. reflexivity.
    - destruct (elements dir'); injection Ee as <- _; reflexivity. }
  rewrite Hfirst in Hc. cbv zeta.
  destruct (Ascii.eqb c "/") eqn:Ec.
  - apply String.eqb_eq in Hfirst. subst first.
    apply andb_true_iff in Hc as [_ Hall].
    cbn [app filepath.cleanElements String.eqb orb].
    rewrite cleanElements_plain.
    2:{ rewrite forallb_app, Hall. cbn [forallb]. by rewrite Hp. }
    rewrite <- Hcat. cbn [reverse app].
    destruct rest; reflexivity.
  - apply andb_true_iff in Hc as [_ Hall].
    rewrite cleanElements_plain.
    2:{ change ((first :: rest) ++ [name]) with (first :: (rest ++ [name])).
        cbn [forallb] in *. apply andb_true_iff in Hall as [-> Hall].
        rewrite forallb_app, Hall. cbn [forallb]. by rewrite Hp. }
    cbn [reverse app]. rewrite bool_decide_eq_false_2 by discriminate.
    exact Hcat.
Qed.

(** The path of the first segment file, as [NewDb] computes it. *)
Lemma first_segment_path root size :
  cleanDir root = true ->
  (generateNewFileName (mkDb (os.mkFile EmptyString true) EmptyString 0 root size 0 [] 0)).1
  = filepath.Join root "current-data0".
Proof.
  intros H. rewrite Join_cleanDir by (exact H || reflexivity). reflexivity.
Qed.



(** [Close] closes the handle of the active file only: what [Get]
    returns is not changed by it. *)
Theorem Get_after_Close k w : Get k (Close w).2 = Get k w.
Proof.
  unfold Close. destruct (os.Close (out w.2)) as [e f].
  unfold Get, getPos, IndexGoroutine, getSegmentAndPos.
  cbn [isWrite op_key fst snd segments set_out].
  destruct (newestFirst (reverse (segments w.2)) k) as [[s p]| |]; reflexivity.
Qed.

(** ** The files of a merge *)







(** ** The balancer under load *)

(** *** What the handler sends and answers *)

Lemma addConn_address d server g p :
  (match lb.mem (lb.addConn d server g) !! p with
   | Some s => lb.address s | None => "" end)
  = (match lb.mem g !! p with Some s => lb.address s | None => "" end).
Proof.
  unfold lb.addConn. cbn [lb.mem lb.set_mem].
  destruct (decide (p = server)) as [->|Hne].
  - rewrite list_lookup_alter_eq. by destruct (lb.mem g !! server).
  - by rewrite list_lookup_alter_ne.
Qed.

(** With a server in the heap the handler calls
    [http.DefaultClient.Do] once, with a request for the address of
    the server it chose that has the method and the URI of the
    inbound request and the deadline [timeout].  When the call fails
    it answers 503.  When the call returns a response, the last one
    if the client followed redirects, with a status from 100 to 999,
    it answers with that status; the header [lb-from] then names the
    address when tracing is on and is the backend's own otherwise.
    On a status below 100 [rw.WriteHeader] panics and nothing is
    answered.  The informational statuses, which the client does not
    hand to its caller, are left aside. *)
Theorem handler_forwards do m uri g server :
  let dst := match lb.mem g !! server with Some s => lb.address s | None => "" end in
  let req := lb.mkOutbound m (lb.scheme g +:+ "://" +:+ dst +:+ uri) (lb.timeout g) in
  (lb.handlerBegin g).1 = Some server ->
  (forall resp, do req = Some resp ->
                lb.StatusCode resp < 100 \/ 200 <= lb.StatusCode resp) ->
  lb.calls (lb.handler do m uri g).1 = [req] /\
  lb.written (lb.handler do m uri g).1
    = match do req with
      | None => Some (lb.mkWritten 503 [])
      | Some resp =>
          if (lb.StatusCode resp <? 100) || (999 <? lb.StatusCode resp) then None
          else Some (lb.mkWritten (lb.StatusCode resp)
                       (if lb.traceEnabled (lb.flags g) then [dst]
                        else lb.Header_lbFrom resp))
      end.
Proof.
  intros dst0 req0 Hb _. subst dst0 req0. unfold lb.handler.
  unfold lb.handlerBegin in *.
  destruct (len (lb.onlineServers g) =? 0); [discriminate|].
  cbv zeta in Hb. cbn [fst] in Hb. injection Hb as <-.
  cbv zeta. rewrite addConn_address. cbn [lb.mem lb.set_online lb.onlineServers].
  set (dst := match lb.mem g !! _ with Some s => lb.address s | None => "" end).
  change (lb.forwardRequest _ dst m uri)
    with (lb.mkOutbound m (lb.scheme g +:+ "://" +:+ dst +:+ uri) (lb.timeout g)).
  set (req := lb.mkOutbound m (lb.scheme g +:+ "://" +:+ dst +:+ uri) (lb.timeout g)).
  unfold lb.forward, lb.WriteHeader.
  cbn [lb.flags lb.addConn lb.set_mem lb.set_online].
  destruct (do req) as [resp|].
  - destruct ((lb.StatusCode resp <? 100) || (999 <? lb.StatusCode resp));
      cbn [mbind option_bind fst lb.calls lb.written]; split; reflexivity.
  - cbn [mbind option_bind fst lb.calls lb.written]. split; reflexivity.
Qed.

Lemma handler_forwards_witness :
  let g := (lb.run probeAll lb.init).2 in
  let do := fun _ : lb.Outbound => Some (lb.mkResponse 500 []) in
  let dst := match lb.mem g !! 0%nat with Some s => lb.address s | None => "" end in
  let req := lb.mkOutbound "GET" (lb.scheme g +:+ "://" +:+ dst +:+ "/test")
                           (lb.timeout g) in
  ((lb.handlerBegin g).1 = Some 0%nat) /\
  (forall resp, do req = Some resp ->
                lb.StatusCode resp < 100 \/ 200 <= lb.StatusCode resp) /\
  lb.calls (lb.handler do "GET" "/test" g).1 = [req] /\
  lb.written (lb.handler do "GET" "/test" g).1
    = match do req with
      | None => Some (lb.mkWritten 503 [])
      | Some resp =>
          if (lb.StatusCode resp <? 100) || (999 <? lb.StatusCode resp) then None
          else Some (lb.mkWritten (lb.StatusCode resp)
                       (if lb.traceEnabled (lb.flags g) then [dst]
                        else lb.Header_lbFrom resp))
      end.
Proof.
  cbv zeta.
  assert (H : (lb.handlerBegin (lb.run probeAll lb.init).2).1 = Some 0%nat)
    by (vm_compute; reflexivity).
  assert (H' : forall resp : lb.Response,
             Some (lb.mkResponse 500 []) = Some resp ->
             lb.StatusCode resp < 100 \/ 200 <= lb.StatusCode resp).
  { intros resp E. injection E as <-. right. cbn [lb.StatusCode]. lia. }
  split; [exact H|]. split; [exact H'|].
  exact (handler_forwards (fun _ => Some (lb.mkResponse 500 [])) "GET" "/test" _ 0%nat H H').
Defined.

(** *** The heap only grows *)

(** No statement sets [isServerOnline], so no server is ever taken
    for online: every probe that finds its backend healthy pushes the
    server once more, and nothing is ever removed.  After any
    interleaving of probes and requests the heap has one entry for
    each healthy probe. *)
Theorem run_heap_grows evs g :
  offline (lb.mem g) ->
  offline (lb.mem (lb.run evs g).2) /\
  length (lb.onlineServers (lb.run evs g).2)
  = (length (lb.onlineServers g) + healthyProbes evs)%nat.
Proof. exact (run_offline_length evs g). Qed.

Lemma run_heap_grows_witness :
  (offline (lb.mem lb.init)) /\
  offline (lb.mem (lb.run (probeAll ++ probeAll) lb.init).2) /\
  length (lb.onlineServers (lb.run (probeAll ++ probeAll) lb.init).2)
  = (length (lb.onlineServers lb.init) + healthyProbes (probeAll ++ probeAll))%nat.
Proof.
  assert (H : offline (lb.mem lb.init)) by (repeat constructor).
  split; [exact H | exact (run_heap_grows (probeAll ++ probeAll) lb.init H)].
Defined.

(** *** The chosen server is in the heap *)

Lemma at_lookup h i x : h !! Z.to_nat i = Some x -> lb.at_ h i = x.
Proof. unfold lb.at_. by intros ->. Qed.

Lemma Swap_Permutation h i j :
  (Z.to_nat i < length h)%nat -> (Z.to_nat j < length h)%nat -> lb.Swap h i j ≡ₚ h.
Proof.
  intros Hi Hj. unfold lb.Swap.
  destruct (lookup_lt_is_Some_2 h _ Hi) as [x Hx].
  destruct (lookup_lt_is_Some_2 h _ Hj) as [y Hy].
  rewrite (at_lookup h i x Hx), (at_lookup h j y Hy).
  by apply Permutation_insert_swap.
Qed.

Lemma down_loop_Permutation fuel m h i :
  0 <= i -> (Z.to_nat i < length h)%nat ->
  (lb.heap.down_loop fuel m h i (lb.Len h)).1 ≡ₚ h.
Proof.
  revert h i. induction fuel as [|fuel IH]; intros h i Hi Hlt; [reflexivity|].
  cbn [lb.heap.down_loop]. cbv zeta.
  destruct ((lb.Len h <=? 2 * i + 1) || (2 * i + 1 <? 0)) eqn:E; [reflexivity|].
  apply orb_false_iff in E as [E1 E2].
  apply Z.leb_gt in E1. apply Z.ltb_ge in E2.
  set (j := if (2 * i + 1 + 1 <? lb.Len h) && lb.Less m h (2 * i + 1 + 1) (2 * i + 1)
            then 2 * i + 1 + 1 else 2 * i + 1).
  assert (Hj : 0 <= j < lb.Len h).
  { unfold j. destruct (Z.ltb_spec (2 * i + 1 + 1) (lb.Len h)); cbn [andb];
      [destruct (lb.Less _ _ _ _)|]; lia. }
  destruct (negb (lb.Less m h j i)); [reflexivity|].
  assert (Hjl : (Z.to_nat j < length h)%nat) by (unfold lb.Len, len in Hj; lia).
  assert (HL : lb.Len (lb.Swap h i j) = lb.Len h)
    by (unfold lb.Len, len; by rewrite length_Swap).
  rewrite <- HL. rewrite IH.
  - by apply Swap_Permutation.
  - lia.
  - by rewrite length_Swap.
Qed.

Lemma up_root m h : lb.heap.up m h 0 = h.
Proof. reflexivity. Qed.

Lemma Fix_root_Permutation m h : h <> [] -> lb.heap.Fix m h 0 ≡ₚ h.
Proof.
  intros Hne. unfold lb.heap.Fix, lb.heap.down.
  pose proof (down_loop_Permutation (S (length h)) m h 0 ltac:(lia)) as Hd.
  destruct (lb.heap.down_loop _ _ _ _ _) as [h' i'] eqn:E. cbn [fst] in Hd.
  assert (Hp : h' ≡ₚ h) by (apply Hd; destruct h; [done | simpl; lia]).
  destruct (negb _); [|exact Hp]. by rewrite up_root.
Qed.

(** Whatever the size of the heap, the handler chooses a server that
    is in it, and fixing the heap neither adds nor drops an entry. *)
Theorem handlerBegin_chooses_online g server g' :
  lb.handlerBegin g = (Some server, g') ->
  server ∈ lb.onlineServers g /\ lb.onlineServers g' ≡ₚ lb.onlineServers g.
Proof.
  unfold lb.handlerBegin.
  destruct (Z.eqb_spec (len (lb.onlineServers g)) 0) as [|Hne]; [discriminate|].
  assert (Hnil : lb.onlineServers g <> []) by (intros Hn; rewrite Hn in Hne; done).
  intros [= <- <-].
  cbn [lb.onlineServers lb.set_online lb.addConn lb.set_mem].
  pose proof (Fix_root_Permutation (lb.mem g) (lb.onlineServers g) Hnil) as Hp.
  split; [|exact Hp].
  destruct (lb.heap.Fix (lb.mem g) (lb.onlineServers g) 0) as [|x h'] eqn:E.
  - apply Permutation_nil_l in Hp. congruence.
  - change (lb.at_ (x :: h') 0) with x. rewrite <- Hp. left.
Qed.

Lemma handlerBegin_chooses_online_witness :
  let g := (lb.run (probeAll ++ probeAll
                    ++ [lb.Arrive; lb.Arrive; lb.Arrive; lb.Finish 0]) lb.init).2 in
  (lb.handlerBegin g = (Some 2%nat, (lb.handlerBegin g).2)) /\
  2%nat ∈ lb.onlineServers g /\
  lb.onlineServers (lb.handlerBegin g).2 ≡ₚ lb.onlineServers g.
Proof.
  cbv zeta.
  assert (H : lb.handlerBegin
                (lb.run (probeAll ++ probeAll
                         ++ [lb.Arrive; lb.Arrive; lb.Arrive; lb.Finish 0]) lb.init).2
              = (Some 2%nat,
                 (lb.handlerBegin
                    (lb.run (probeAll ++ probeAll
                             ++ [lb.Arrive; lb.Arrive; lb.Arrive; lb.Finish 0])
                            lb.init).2).2))
    by (vm_compute; reflexivity).
  split; [exact H|].
  exact (handlerBegin_chooses_online _ _ _ H).
Defined.

(** *** The balancer that scans the pool *)

Lemma min_loop_spec pre rest mi m :
  (mi < length pre)%nat ->
  (pre ++ rest) !! mi = Some m ->
  (forall j s, (j < length pre)%nat -> (pre ++ rest) !! j = Some s ->
               lb_scan.connCnt m <= lb_scan.connCnt s) ->
  (forall j s, (j < mi)%nat -> (pre ++ rest) !! j = Some s ->
               lb_scan.connCnt m < lb_scan.connCnt s) ->
  exists m',
    (pre ++ rest) !! lb_scan.min_loop lb_scan.fewer (pre ++ rest) rest (length pre) mi
      = Some m' /\
    (forall j s, (pre ++ rest) !! j = Some s ->
                 lb_scan.connCnt m' <= lb_scan.connCnt s) /\
    (forall j s, (j < lb_scan.min_loop lb_scan.fewer (pre ++ rest) rest (length pre) mi)%nat ->
                 (pre ++ rest) !! j = Some s ->
                 lb_scan.connCnt m' < lb_scan.connCnt s).
Proof.
  revert pre mi m. induction rest as [|s rest IH]; intros pre mi m Hmi Hm Hle Hlt.
  - cbn [lb_scan.min_loop]. exists m. split; [exact Hm|]. split; [|exact Hlt].
    intros j s Hj. apply (Hle j s); [|exact Hj].
    apply lookup_lt_Some in Hj. by rewrite app_nil_r in Hj.
  - cbn [lb_scan.min_loop]. rewrite Hm.
    assert (Hs : (pre ++ s :: rest) !! length pre = Some s)
      by (by rewrite list_lookup_middle).
    replace (pre ++ s :: rest) with ((pre ++ [s]) ++ rest) in *
      by (by rewrite <- app_assoc).
    replace (S (length pre)) with (length (pre ++ [s]))
      by (rewrite length_app; simpl; lia).
    destruct (lb_scan.fewer s m) eqn:E; unfold lb_scan.fewer in E;
      [apply Z.ltb_lt in E as Hless | apply Z.ltb_ge in E as Hge].
    + (* the server at [i] has fewer connections: it is the new minimum *)
      apply (IH (pre ++ [s]) (length pre) s).
      * rewrite length_app. simpl. lia.
      * exact Hs.
      * intros j s' Hj Hs'. rewrite length_app in Hj. simpl in Hj.
        destruct (decide (j = length pre)) as [->|Hne].
        -- rewrite Hs in Hs'. injection Hs' as <-. lia.
        -- specialize (Hle j s' ltac:(lia) Hs'). lia.
      * intros j s' Hj Hs'. specialize (Hle j s' Hj Hs'). lia.
    + apply (IH (pre ++ [s]) mi m).
      * rewrite length_app. simpl. lia.
      * exact Hm.
      * intros j s' Hj Hs'. rewrite length_app in Hj. simpl in Hj.
        destruct (decide (j = length pre)) as [->|Hne].
        -- rewrite Hs in Hs'. injection Hs' as <-. lia.
        -- apply (Hle j s'); [lia | exact Hs'].
      * exact Hlt.
Qed.

(** [min] with the comparison of the handler returns the first
    position of the pool whose server has the fewest connections: no
    server has fewer, and every server before it has more. *)
Theorem min_first_least (serversPool : list lb_scan.Server) :
  serversPool <> [] ->
  exists i m,
    lb_scan.min serversPool lb_scan.fewer = Some i /\
    serversPool !! i = Some m /\
    (forall j s, serversPool !! j = Some s ->
                 lb_scan.connCnt m <= lb_scan.connCnt s) /\
    (forall j s, (j < i)%nat -> serversPool !! j = Some s ->
                 lb_scan.connCnt m < lb_scan.connCnt s).
Proof.
  intros Hne. destruct serversPool as [|s0 rest]; [done|].
  unfold lb_scan.min.
  change (len (s0 :: rest) =? 0) with false. cbv iota.
  change (drop 1 (s0 :: rest)) with rest.
  destruct (min_loop_spec [s0] rest 0%nat s0) as (m' & H1 & H2 & H3).
  - simpl. lia.
  - reflexivity.
  - intros j s Hj Hs. simpl in Hj. assert (j = 0%nat) as -> by lia.
    injection Hs as <-. lia.
  - intros j s Hj. lia.
  - eexists _, m'. split; [reflexivity|]. split; [exact H1|]. split; [exact H2 | exact H3].
Qed.

Lemma min_first_least_witness :
  let serversPool := [lb_scan.mkServer "server1:8080" 3;
                      lb_scan.mkServer "server2:8080" 2;
                      lb_scan.mkServer "server3:8080" 1] in
  (serversPool <> []) /\
  exists i m,
    lb_scan.min serversPool lb_scan.fewer = Some i /\
    serversPool !! i = Some m /\
    (forall j s, serversPool !! j = Some s ->
                 lb_scan.connCnt m <= lb_scan.connCnt s) /\
    (forall j s, (j < i)%nat -> serversPool !! j = Some s ->
                 lb_scan.connCnt m < lb_scan.connCnt s).
Proof.
  cbv zeta.
  assert (H : [lb_scan.mkServer "server1:8080" 3; lb_scan.mkServer "server2:8080" 2;
               lb_scan.mkServer "server3:8080" 1] <> []) by discriminate.
  split; [exact H | exact (min_first_least _ H)].
Defined.

(** [min] on an empty pool ends the process. *)
Lemma min_empty cmpFn : lb_scan.min [] cmpFn = None.
Proof. reflexivity. Qed.

(** ** The index and the recovery *)

(** *** A put leaves the other keys where they are *)

Lemma keyPlace_segments db1 db2 k :
  segments db1 = segments db2 -> keyPlace db1 k = keyPlace db2 k.
Proof. intros H. unfold keyPlace, getSegmentAndPos. by rewrite H. Qed.

Lemma keyPlace_createNewSegment w k :
  keyPlace (createNewSegment w).2.2 k = keyPlace w.2 k.
Proof.
  destruct w as [fs db]. unfold createNewSegment, generateNewFileName.
  destruct (os.OpenFile fs _) as [[f|e|p] fs1]; cbn [fst snd];
    try (by apply keyPlace_segments).
  transitivity (keyPlace (set_segments (segments db ++ [mkSegment 0 ∅
                  (dir db +:+ "/" +:+ outFileName +:+ pretty (lastSegmentIndex db))]) db) k).
  - apply keyPlace_segments. by destruct (3 <=? _).
  - unfold keyPlace, getSegmentAndPos. cbn [segments set_segments].
    rewrite reverse_snoc. cbn [newestFirst index]. by rewrite lookup_empty.
Qed.

Lemma keyPlace_setKey k k' n db db' :
  k <> k' -> setKey k' n db = Ok db' -> keyPlace db' k = keyPlace db k.
Proof.
  intros Hne. unfold setKey, getLastSegment.
  destruct (last (segments db)) as [s|] eqn:El; [|discriminate].
  go. intros [= <-].
  apply last_Some in El as [older Hs].
  unfold keyPlace, getSegmentAndPos. cbn [segments set_outOffset set_segments].
  rewrite Hs, length_app. simpl length.
  replace (length older + 1 - 1)%nat with (length older + 0)%nat by lia.
  rewrite insert_app_r.
  change (<[0%nat := ?x]> [s]) with [x].
  rewrite !reverse_snoc. cbn [newestFirst index].
  rewrite lookup_insert_ne by congruence.
  by destruct (index s !! k).
Qed.

(** A put changes the place of its own key only: a lookup of any
    other key finds it in the same file at the same offset as before,
    or does not find it as before, whether the put rotates, fails or
    succeeds. *)
Theorem Put_keeps_other_keys k k' v w :
  k <> k' -> keyPlace (Put k' v w).2.2 k = keyPlace w.2 k.
Proof.
  intros Hne. unfold Put, PutGoroutine.
  destruct (os.StatSize w.1 (out w.2)) as [size| |]; [|reflexivity..].
  set (e := mkEntry k' (v +:+ "s") "").
  assert (Hrot : keyPlace
                   (if segmentSize w.2 <? size + GetLength e
                    then createNewSegment w else (Ok (), w)).2.2 k
                 = keyPlace w.2 k).
  { destruct (_ <? _); [apply keyPlace_createNewSegment | reflexivity]. }
  destruct (if segmentSize w.2 <? size + GetLength e then createNewSegment w else (Ok (), w))
    as [r [fs1 db1]]. cbn [snd] in Hrot.
  destruct r as [[]| |]; cbn [snd]; try exact Hrot.
  destruct (os.Write fs1 (out db1) (Encode e)) as [[n err] fs2].
  destruct err; cbn [snd]; [exact Hrot|].
  unfold IndexGoroutine. cbn [isWrite op_key op_index e key].
  destruct (setKey k' n db1) as [db2| |] eqn:Es; go; cbn [snd]; try exact Hrot.
  rewrite <- Hrot. by eapply keyPlace_setKey.
Qed.

Lemma Put_keeps_other_keys_witness :
  ("1" <> "2") /\
  keyPlace (Put "2" "b" (Put "1" "a" (disk0 4096, db0)).2).2.2 "1"
  = keyPlace (Put "1" "a" (disk0 4096, db0)).2.2 "1".
Proof.
  assert (H : "1" <> "2") by discriminate.
  split; [exact H|].
  exact (Put_keeps_other_keys "1" "2" "b" (Put "1" "a" (disk0 4096, db0)).2 H).
Defined.

(** *** Recovery from a file that does not end with a whole frame *)







(** *** The invariant of the store *)



(** *** Requests that do not overlap *)

Lemma at_elem h i : 0 <= i < len h -> lb.at_ h i ∈ h.
Proof.
  intros Hi.
  destruct (lookup_lt_is_Some_2 h (Z.to_nat i)) as [x Hx]; [unfold len in Hi; lia|].
  rewrite (at_lookup h i x Hx). by eapply list_elem_of_lookup_2.
Qed.

Lemma Less_equal m h i j :
  (forall p q, p ∈ h -> q ∈ h -> lb.cnt m p = lb.cnt m q) ->
  0 <= i < len h -> 0 <= j < len h -> lb.Less m h i j = false.
Proof.
  intros Heq Hi Hj. unfold lb.Less.
  rewrite (Heq (lb.at_ h i) (lb.at_ h j)) by (by apply at_elem).
  apply Z.ltb_irrefl.
Qed.

(** With equal counts nothing moves when the root is fixed. *)
Lemma Fix_root_equal m h :
  h <> [] ->
  (forall p q, p ∈ h -> q ∈ h -> lb.cnt m p = lb.cnt m q) ->
  lb.heap.Fix m h 0 = h.
Proof.
  intros Hne Heq. unfold lb.heap.Fix, lb.heap.down.
  assert (Hn : 0 < lb.Len h) by (destruct h; [done | unfold lb.Len, len; simpl; lia]).
  assert (Hd : lb.heap.down_loop (S (length h)) m h 0 (lb.Len h) = (h, 0)).
  { cbn [lb.heap.down_loop]. cbv zeta. change (2 * 0 + 1) with 1.
    destruct (Z.leb_spec (lb.Len h) 1); [reflexivity|]. cbn [orb].
    change (1 <? 0) with false. cbv iota. change (1 + 1) with 2.
    assert (Hj : (if (2 <? lb.Len h) && lb.Less m h 2 1 then 2 else 1) = 1).
    { destruct (Z.ltb_spec 2 (lb.Len h)); [|reflexivity]. cbn [andb].
      rewrite Less_equal; [reflexivity | exact Heq | unfold lb.Len in *; lia..]. }
    rewrite Hj. rewrite Less_equal; [reflexivity | exact Heq | unfold lb.Len in *; lia..]. }
  rewrite Hd. reflexivity.
Qed.

Lemma addConn_undo server g :
  lb.handlerEnd server (lb.addConn 1 server g) = g.
Proof.
  unfold lb.handlerEnd, lb.addConn, lb.set_mem. cbn [lb.mem lb.flags lb.timeout
    lb.serversPool lb.onlineServers].
  destruct g as [fl t m pool h]. cbn [lb.mem lb.flags lb.timeout lb.serversPool
    lb.onlineServers]. f_equal.
  rewrite list_alter_alter_eq.
  apply list_alter_id. intros [a c o]. simpl. f_equal. lia.
Qed.

Lemma handlerBegin_equal g :
  lb.onlineServers g <> [] ->
  (forall p q, p ∈ lb.onlineServers g -> q ∈ lb.onlineServers g ->
               lb.cnt (lb.mem g) p = lb.cnt (lb.mem g) q) ->
  lb.handlerBegin g
  = (Some (lb.at_ (lb.onlineServers g) 0),
     lb.addConn 1 (lb.at_ (lb.onlineServers g) 0) g).
Proof.
  intros Hne Heq. unfold lb.handlerBegin.
  destruct (Z.eqb_spec (len (lb.onlineServers g)) 0) as [Hz|_].
  { destruct (lb.onlineServers g); [done | unfold len in Hz; simpl in Hz; lia]. }
  rewrite Fix_root_equal by assumption.
  assert (Hg : lb.set_online (lb.onlineServers g) g = g) by (by destruct g).
  by rewrite Hg.
Qed.

(** A request that is served alone leaves the balancer as it found
    it.  So when the servers of the heap have equal counts, requests
    that do not overlap are all given to the server at the root of
    the heap, however many they are. *)
Theorem requests_one_by_one n g :
  lb.onlineServers g <> [] ->
  (forall p q, p ∈ lb.onlineServers g -> q ∈ lb.onlineServers g ->
               lb.cnt (lb.mem g) p = lb.cnt (lb.mem g) q) ->
  lb.run (oneByOne n (lb.at_ (lb.onlineServers g) 0)) g
  = (replicate n (Some (lb.at_ (lb.onlineServers g) 0)), g).
Proof.
  intros Hne Heq. induction n as [|n IH]; [reflexivity|].
  cbn [oneByOne lb.run replicate].
  rewrite handlerBegin_equal by assumption.
  cbn [lb.run]. rewrite addConn_undo, IH. reflexivity.
Qed.

Lemma requests_one_by_one_witness :
  let g := (lb.run probeAll lb.init).2 in
  (lb.onlineServers g <> []) /\
  (forall p q, p ∈ lb.onlineServers g -> q ∈ lb.onlineServers g ->
               lb.cnt (lb.mem g) p = lb.cnt (lb.mem g) q) /\
  lb.run (oneByOne 3 (lb.at_ (lb.onlineServers g) 0)) g
  = (replicate 3 (Some (lb.at_ (lb.onlineServers g) 0)), g).
Proof.
  cbv zeta.
  assert (H1 : lb.onlineServers (lb.run probeAll lb.init).2 <> [])
    by (vm_compute; discriminate).
  assert (H2 : forall p q,
             p ∈ lb.onlineServers (lb.run probeAll lb.init).2 ->
             q ∈ lb.onlineServers (lb.run probeAll lb.init).2 ->
             lb.cnt (lb.mem (lb.run probeAll lb.init).2) p
             = lb.cnt (lb.mem (lb.run probeAll lb.init).2) q).
  { change (lb.onlineServers (lb.run probeAll lb.init).2) with [0; 1; 2]%nat.
    intros p q Hp Hq. set_unfold.
    destruct Hp as [->|[->|[->|[]]]]; destruct Hq as [->|[->|[->|[]]]]; reflexivity. }
  repeat (split; [assumption|]).
  exact (requests_one_by_one 3 _ H1 H2).
Defined.
